(** * The LARS provider: SSE-to-stream-part transcoder

    A shallow embedding of [src/lars-language-model.ts]: the JavaScript
    string operations the transform uses, the JSON values it parses, the
    zod schema of a backend event, the translation of a validated event
    into SDK stream parts, the buffering loop of the [TransformStream],
    and the precondition checks of [doStream]. *)

From Stdlib Require Import ZArith NArith List Lia Bool.
From Stdlib Require Import Strings.String Strings.Ascii DecimalString.
From stdpp Require Import base option list gmap.
From Equations Require Import Equations.

Local Open Scope Z_scope.

(** ** JavaScript strings

    A JavaScript string is a sequence of UTF-16 code units.  A code unit is
    a number in [N]; nothing below relies on its being smaller than
    65536. *)

Module JS.

Definition jsstring : Type := list N.

(** A source literal, character by character. *)
Definition lit (s : string) : jsstring :=
  List.map N_of_ascii (list_ascii_of_string s).

(** JSON text for the examples: an apostrophe stands for the quotation
    mark U+0022, so [jlit "{'type':'start'}"] is an object with the one
    key [type]. *)
Definition jlit (s : string) : jsstring :=
  List.map (fun c => if N.eqb c 39 then 34%N else c) (lit s).

(** [s.startsWith(p)]. *)
Fixpoint startsWith (s p : jsstring) {struct p} : bool :=
  match p, s with
  | [], _ => true
  | _ :: _, [] => false
  | a :: p', b :: s' => N.eqb a b && startsWith s' p'
  end.

(** [s.indexOf(p)]: the least index at which [p] occurs in [s], or -1. *)
Fixpoint indexOf_from (s p : jsstring) (i : Z) : Z :=
  if startsWith s p then i
  else match s with
       | [] => -1
       | _ :: s' => indexOf_from s' p (i + 1)
       end.

Definition indexOf (s p : jsstring) : Z := indexOf_from s p 0.

(** [s.slice(start, end)]; [end_ = None] is the call with one argument.
    A negative position counts from the end, and positions are clamped to
    the string. *)
Definition slice (s : jsstring) (start : Z) (end_ : option Z) : jsstring :=
  let len := Z.of_nat (length s) in
  let rel k := if k <? 0 then Z.max (len + k) 0 else Z.min k len in
  let from := rel start in
  let to := match end_ with None => len | Some e => rel e end in
  take (Z.to_nat (to - from)) (drop (Z.to_nat from) s).

(** ECMAScript WhiteSpace and LineTerminator code points, all of them in
    the basic plane: what [trim] removes. *)
Definition isWhiteSpace (c : N) : bool :=
  (N.eqb c 9 || N.eqb c 10 || N.eqb c 11 || N.eqb c 12 || N.eqb c 13
   || N.eqb c 32 || N.eqb c 160 || N.eqb c 5760
   || (N.leb 8192 c && N.leb c 8202)
   || N.eqb c 8232 || N.eqb c 8233 || N.eqb c 8239 || N.eqb c 8287
   || N.eqb c 12288 || N.eqb c 65279)%N.

Fixpoint trimStart (s : jsstring) : jsstring :=
  match s with
  | c :: s' => if isWhiteSpace c then trimStart s' else s
  | [] => []
  end.

Definition trimEnd (s : jsstring) : jsstring := rev (trimStart (rev s)).

Definition trim (s : jsstring) : jsstring := trimEnd (trimStart s).

(** [s.replace(/^p/, r)] for a pattern [p] of literal characters: the
    pattern is anchored at the start and the regular expression has no
    [g] flag, so at most one occurrence, the leading one, is replaced. *)
Definition replace_anchored (s p r : jsstring) : jsstring :=
  if startsWith s p then r ++ drop (length p) s else s.

(** Iteration over a string ([for (const x of s)]) yields its code points:
    a surrogate pair comes out as one two-unit string. *)
Definition isHighSurrogate (c : N) : bool := (N.leb 55296 c && N.leb c 56319)%N.
Definition isLowSurrogate (c : N) : bool := (N.leb 56320 c && N.leb c 57343)%N.

Fixpoint iterate (s : jsstring) : list jsstring :=
  match s with
  | [] => []
  | c :: s' =>
      match s' with
      | d :: s'' =>
          if isHighSurrogate c && isLowSurrogate d
          then [c; d] :: iterate s''
          else [c] :: iterate s'
      | [] => [[c]]
      end
  end.

(** The decimal numeral of a natural number ([String(n)]). *)
Definition decimal (n : N) : jsstring := lit (NilEmpty.string_of_uint (N.to_uint n)).

End JS.

Import JS.

(** Cutting a string at the first occurrence of a pattern: what comes
    before it and what comes after it.  [indexOf] and [slice] compute the
    same two pieces (lemma [cut_slices] below). *)
Fixpoint cut (s p : jsstring) : option (jsstring * jsstring) :=
  if startsWith s p then Some ([], drop (length p) s)
  else match s with
       | [] => None
       | c :: s' => '(m, r) ← cut s' p; Some (c :: m, r)
       end.

(** ** JSON values

    What [JSON.parse] returns.  An object is the list of its own
    properties in the order in which they are enumerated.  A number is an
    IEEE 754 double; [JSON.parse] yields no NaN, so a number is a zero, a
    finite number [m * 2^e] or an infinity, each with its sign.  A finite
    number is written with [2^52 <= m < 2^53] and [-1074 <= e <= 971], or
    with [m < 2^52] and [e = -1074]: equal numbers are then equal
    values. *)

Module Json.

Inductive number : Type :=
| NZero (negative : bool)
| NFinite (negative : bool) (m : positive) (e : Z)
| NInfinity (negative : bool).

(** The double nearest to [p / q], for [0 <= p] and [0 < q], a tie going
    to the even significand: first the exponent of the last place, then
    the quotient at that scale and its rounding. *)
Definition nearest (negative : bool) (p q : Z) : number :=
  if p =? 0 then NZero negative else
  let scaled e := if 0 <=? e then (p, q * 2 ^ e) else (p * 2 ^ (- e), q) in
  let e0 := Z.max (Z.log2 p - Z.log2 q - 53) (-1074) in
  let '(n0, d0) := scaled e0 in
  let e1 := if 2 ^ 53 <=? n0 / d0 then e0 + 1 else e0 in
  let '(n, d) := scaled e1 in
  let m := n / d in
  let r := n mod d in
  let up := (d <? 2 * r) || ((d =? 2 * r) && Z.odd m) in
  let m1 := if up then m + 1 else m in
  let '(m2, e2) := if m1 =? 2 ^ 53 then (2 ^ 52, e1 + 1) else (m1, e1) in
  if 971 <? e2 then NInfinity negative
  else match m2 with
       | Zpos m3 => NFinite negative m3 e2
       | _ => NZero negative
       end.

(** The number an integer literal of the source denotes. *)
Definition integer (n : Z) : number := nearest (n <? 0) (Z.abs n) 1.

Inductive json : Type :=
| JNull
| JBool (b : bool)
| JNumber (n : number)
| JString (s : jsstring)
| JArray (l : list json)
| JObject (o : list (jsstring * json)).

(** [o[k]] on a parsed object: [None] is [undefined]. *)
Fixpoint get (k : jsstring) (o : list (jsstring * json)) : option json :=
  match o with
  | [] => None
  | (k', v) :: o' => if decide (k = k') then Some v else get k o'
  end.

(** Defining a property in a list of properties: a key that is already
    there keeps its place and takes the new value, a new key goes to the
    end. *)
Fixpoint set (k : jsstring) (v : json) (o : list (jsstring * json))
  : list (jsstring * json) :=
  match o with
  | [] => [(k, v)]
  | (k', v') :: o' =>
      if decide (k = k') then (k, v) :: o' else (k', v') :: set k v o'
  end.

Definition isDigit (c : N) : bool := (N.leb 48 c && N.leb c 57)%N.

(** The integer a string of digits denotes. *)
Definition natural (ds : jsstring) : Z :=
  fold_left (fun n c => 10 * n + Z.of_N (c - 48)) ds 0.

(** An array index: the canonical numeral of an integer below
    [2^32 - 1]. *)
Definition array_index (k : jsstring) : option Z :=
  match k with
  | [] => None
  | c :: r =>
      if forallb isDigit k && (negb (N.eqb c 48) || bool_decide (r = []))
         && (natural k <? 4294967295)
      then Some (natural k)
      else None
  end.

Fixpoint insert_index (i : Z) (p : jsstring * json)
  (l : list (Z * (jsstring * json))) : list (Z * (jsstring * json)) :=
  match l with
  | [] => [(i, p)]
  | (j, q) :: l' =>
      if i <? j then (i, p) :: l else (j, q) :: insert_index i p l'
  end.

(** The order in which the own properties of an object are enumerated:
    the array indices in ascending order, then the other keys in the
    order of their creation. *)
Definition ordered (o : list (jsstring * json)) : list (jsstring * json) :=
  (snd <$> fold_left (fun l p => match array_index (fst p) with
                                 | Some i => insert_index i p l
                                 | None => l
                                 end) o [])
  ++ List.filter (fun p => match array_index (fst p) with
                            | Some _ => false
                            | None => true
                            end) o.

(** *** A reference parser for the JSON grammar *)

Definition isJsonSpace (c : N) : bool :=
  (N.eqb c 9 || N.eqb c 10 || N.eqb c 13 || N.eqb c 32)%N.

Fixpoint skip_ws (s : jsstring) : jsstring :=
  match s with
  | c :: s' => if isJsonSpace c then skip_ws s' else s
  | [] => []
  end.

Fixpoint digits (s : jsstring) : jsstring * jsstring :=
  match s with
  | c :: s' =>
      if isDigit c then let '(ds, r) := digits s' in (c :: ds, r) else ([], s)
  | [] => ([], [])
  end.

Definition hex (c : N) : option N :=
  if isDigit c then Some (c - 48)%N
  else if (N.leb 65 c && N.leb c 70)%N then Some (c - 55)%N
  else if (N.leb 97 c && N.leb c 102)%N then Some (c - 87)%N
  else None.

(** The character an escape of two characters stands for, by its second
    character. *)
Definition escape (c : N) : option N :=
  if N.eqb c 34 then Some 34%N            (* quotation mark *)
  else if N.eqb c 92 then Some 92%N       (* reverse solidus *)
  else if N.eqb c 47 then Some 47%N       (* solidus *)
  else if N.eqb c 98 then Some 8%N        (* b: backspace *)
  else if N.eqb c 102 then Some 12%N      (* f: form feed *)
  else if N.eqb c 110 then Some 10%N      (* n: line feed *)
  else if N.eqb c 114 then Some 13%N      (* r: carriage return *)
  else if N.eqb c 116 then Some 9%N       (* t: tab *)
  else None.

(** The characters of a string, after its opening quotation mark and up
    to the closing one. *)
Fixpoint string_chars (s : jsstring) : option (jsstring * jsstring) :=
  match s with
  | [] => None
  | c :: s1 =>
      if N.eqb c 34 then Some ([], s1)
      else if N.ltb c 32 then None
      else if N.eqb c 92 then
        match s1 with
        | [] => None
        | e :: s2 =>
            if N.eqb e 117 then
              match s2 with
              | h1 :: h2 :: h3 :: h4 :: s3 =>
                  match hex h1, hex h2, hex h3, hex h4 with
                  | Some a, Some b, Some x, Some y =>
                      match string_chars s3 with
                      | Some (cs, r) =>
                          Some ((a * 4096 + b * 256 + x * 16 + y)%N :: cs, r)
                      | None => None
                      end
                  | _, _, _, _ => None
                  end
              | _ => None
              end
            else
              match escape e, string_chars s2 with
              | Some u, Some (cs, r) => Some (u :: cs, r)
              | _, _ => None
              end
        end
      else
        match string_chars s1 with
        | Some (cs, r) => Some (c :: cs, r)
        | None => None
        end
  end.

(** A number: an optional minus sign, an integer part without a
    superfluous leading zero, an optional fraction and an optional
    exponent.  The result is the double nearest to the decimal the
    numeral denotes. *)
Definition sign_of (signs : list N) (s : jsstring) : jsstring * jsstring :=
  match s with
  | c :: r => if existsb (N.eqb c) signs then ([c], r) else ([], s)
  | [] => ([], s)
  end.

Definition int_part (s : jsstring) : option (jsstring * jsstring) :=
  match s with
  | c :: r => if N.eqb c 48 then Some ([c], r)
              else if isDigit c then Some (digits s)
              else None
  | [] => None
  end.

(** The digits of the fraction, without the point. *)
Definition frac_part (s : jsstring) : option (jsstring * jsstring) :=
  match s with
  | c :: r => if N.eqb c 46
              then match digits r with
                   | ([], _) => None
                   | (fs, r') => Some (fs, r')
                   end
              else Some ([], s)
  | [] => Some ([], s)
  end.

(** The exponent, [0] where the numeral has none. *)
Definition exp_part (s : jsstring) : option (Z * jsstring) :=
  match s with
  | c :: r => if N.eqb c 101 || N.eqb c 69
              then let '(sg, r1) := sign_of [43; 45]%N r in
                   match digits r1 with
                   | ([], _) => None
                   | (es, r2) =>
                       Some (if bool_decide (sg = [45%N])
                             then - natural es else natural es, r2)
                   end
              else Some (0, s)
  | [] => Some (0, s)
  end.

(** [d * 10^k] as a double. *)
Definition scientific (negative : bool) (d k : Z) : number :=
  if 0 <=? k then nearest negative (d * 10 ^ k) 1
  else nearest negative d (10 ^ (- k)).

Definition numeral (s : jsstring) : option (number * jsstring) :=
  let '(sg, s1) := sign_of [45%N] s in
  '(ds, s2) ← int_part s1;
  '(fs, s3) ← frac_part s2;
  '(x, s4) ← exp_part s3;
  Some (scientific (bool_decide (sg = [45%N])) (natural (ds ++ fs))
          (x - Z.of_nat (length fs)), s4).

Definition keyword (w : string) (v : json) (s : jsstring)
  : option (json * jsstring) :=
  if startsWith s (lit w) then Some (v, drop (length (lit w)) s) else None.

Fixpoint value (fuel : nat) (s : jsstring) : option (json * jsstring) :=
  match fuel with
  | O => None
  | S fuel' =>
      match skip_ws s with
      | [] => None
      | c :: r =>
          if N.eqb c 123 then
            match skip_ws r with
            | d :: r' => if N.eqb d 125 then Some (JObject [], r')
                         else members fuel' r []
            | [] => None
            end
          else if N.eqb c 91 then
            match skip_ws r with
            | d :: r' => if N.eqb d 93 then Some (JArray [], r')
                         else elements fuel' r []
            | [] => None
            end
          else if N.eqb c 34 then
            '(str, r') ← string_chars r; Some (JString str, r')
          else if N.eqb c 116 then keyword "true" (JBool true) (c :: r)
          else if N.eqb c 102 then keyword "false" (JBool false) (c :: r)
          else if N.eqb c 110 then keyword "null" JNull (c :: r)
          else '(n, r') ← numeral (c :: r); Some (JNumber n, r')
      end
  end
with elements (fuel : nat) (s : jsstring) (acc : list json)
  : option (json * jsstring) :=
  match fuel with
  | O => None
  | S fuel' =>
      match value fuel' s with
      | Some (v, r) =>
          match skip_ws r with
          | c :: r' => if N.eqb c 44 then elements fuel' r' (acc ++ [v])
                       else if N.eqb c 93 then Some (JArray (acc ++ [v]), r')
                       else None
          | [] => None
          end
      | None => None
      end
  end
with members (fuel : nat) (s : jsstring) (acc : list (jsstring * json))
  : option (json * jsstring) :=
  match fuel with
  | O => None
  | S fuel' =>
      match skip_ws s with
      | q :: r0 =>
          if N.eqb q 34 then
            match string_chars r0 with
            | Some (k, r1) =>
                match skip_ws r1 with
                | c :: r2 =>
                    if N.eqb c 58 then
                      match value fuel' r2 with
                      | Some (v, r3) =>
                          match skip_ws r3 with
                          | d :: r4 =>
                              if N.eqb d 44
                              then members fuel' r4 (set k v acc)
                              else if N.eqb d 125
                              then Some (JObject (ordered (set k v acc)), r4)
                              else None
                          | [] => None
                          end
                      | None => None
                      end
                    else None
                | [] => None
                end
            | None => None
            end
          else None
      | [] => None
      end
  end.

(** [JSON.parse(text)]: the value, or [None] where it throws a
    SyntaxError.  A call of [value] has consumed a character when it calls
    itself again two levels down, so the fuel does not run out. *)
Definition parse (text : jsstring) : option json :=
  match value (2 * length text + 2) text with
  | Some (v, r) => match skip_ws r with [] => Some v | _ :: _ => None end
  | None => None
  end.

End Json.

Import Json.

(** ** Backend events and their schema *)

Module Event.

(** The eleven tags of [z.enum([...])]. *)
Inductive tag : Type :=
| Start | Metadata
| ReasoningStart | ReasoningDelta | ReasoningEnd
| TextStart | TextDelta | TextEnd
| Error | Finish | Done.

Definition tags : list (string * tag) :=
  [ ("start", Start); ("metadata", Metadata);
    ("reasoning-start", ReasoningStart); ("reasoning-delta", ReasoningDelta);
    ("reasoning-end", ReasoningEnd);
    ("text-start", TextStart); ("text-delta", TextDelta); ("text-end", TextEnd);
    ("error", Error); ("finish", Finish); ("done", Done) ]%string.

Record usage_t : Type := Usage {
  inputTokens : number;
  outputTokens : number;
  reasoningTokens : option number;
  totalTokens : number
}.

(** [LarsBackendStreamEvent], the type inferred from the schema: every
    field but [type] may be [undefined]. *)
Record t : Type := Make {
  type : tag;
  messageId : option jsstring;
  id : option jsstring;
  delta : option jsstring;
  errorText : option jsstring;
  finishReason : option jsstring;
  usage : option usage_t;
  answer : option json;
  data : option (list (jsstring * json))
}.

End Event.

(** A zod schema, as the function its [safeParse] computes: from a value
    that may be [undefined] to the parsed data, [None] where validation
    fails. *)
Module Zod.

Definition schema (A : Type) : Type := option json -> option A.

Definition string_ : schema jsstring :=
  fun v => match v with Some (JString s) => Some s | _ => None end.

Definition number_ : schema number :=
  fun v => match v with Some (JNumber n) => Some n | _ => None end.

Definition unknown : schema (option json) := fun v => Some v.

Definition enum {A : Type} (values : list (string * A)) : schema A :=
  fun v => s ← string_ v;
           snd <$> List.find (fun p => bool_decide (lit (fst p) = s)) values.

(** [z.record(z.unknown())]: any object.  The result is a new object
    that takes over the properties of the value one by one, in their
    order, and leaves out a property named [__proto__]. *)
Definition record_unknown : schema (list (jsstring * json)) :=
  fun v => match v with
           | Some (JObject o) =>
               Some (List.filter
                       (fun p => negb (bool_decide (fst p = lit "__proto__")))
                       o)
           | _ => None
           end.

Definition optional {A : Type} (s : schema A) : schema (option A) :=
  fun v => match v with None => Some None | Some _ => Some <$> s v end.

(** [z.object({...})]: the value must be an object; [fields] reads the
    declared keys off it and properties that are not declared are left
    out of the result. *)
Definition object {A : Type} (fields : list (jsstring * json) -> option A)
  : schema A :=
  fun v => match v with Some (JObject o) => fields o | _ => None end.

Definition field {A : Type} (key : string) (s : schema A)
  (o : list (jsstring * json)) : option A :=
  s (get (lit key) o).

End Zod.

Definition usageSchema : Zod.schema Event.usage_t :=
  Zod.object (fun o =>
    inputTokens ← Zod.field "inputTokens" Zod.number_ o;
    outputTokens ← Zod.field "outputTokens" Zod.number_ o;
    reasoningTokens ← Zod.field "reasoningTokens" (Zod.optional Zod.number_) o;
    totalTokens ← Zod.field "totalTokens" Zod.number_ o;
    Some (Event.Usage inputTokens outputTokens reasoningTokens totalTokens)).

Definition larsBackendStreamEventSchema : Zod.schema Event.t :=
  Zod.object (fun o =>
    type ← Zod.field "type" (Zod.enum Event.tags) o;
    messageId ← Zod.field "messageId" (Zod.optional Zod.string_) o;
    id ← Zod.field "id" (Zod.optional Zod.string_) o;
    delta ← Zod.field "delta" (Zod.optional Zod.string_) o;
    errorText ← Zod.field "errorText" (Zod.optional Zod.string_) o;
    finishReason ← Zod.field "finishReason" (Zod.optional Zod.string_) o;
    usage ← Zod.field "usage" (Zod.optional usageSchema) o;
    answer ← Zod.field "answer" Zod.unknown o;
    data ← Zod.field "data" (Zod.optional Zod.record_unknown) o;
    Some (Event.Make type messageId id delta errorText finishReason
            usage answer data)).

(** [schema.safeParse(json)]: [Some] is a result with [success] set. *)
Definition safeParse {A : Type} (s : Zod.schema A) (j : json) : option A :=
  s (Some j).

(** ** Stream parts, requests, effects *)

Inductive Exception : Type :=
| SyntaxError
| TypeError
| Error (message : jsstring)
| UnsupportedFunctionalityError (functionality : jsstring).

Module Part.

Record usage_t : Type := Usage {
  inputTokens : number;
  outputTokens : number;
  totalTokens : number;
  reasoningTokens : option number
}.

(** The stream parts the transform enqueues. *)
Inductive t : Type :=
| StreamStart (warnings : list jsstring)
| Data (data : list (jsstring * json))
| ReasoningStart (id : jsstring)
| ReasoningDelta (id delta : jsstring)
| ReasoningEnd (id : jsstring)
| TextStart (id : jsstring)
| TextDelta (id delta : jsstring)
| TextEnd (id : jsstring)
| Error (error : Exception)
| Finish (finishReason : jsstring) (usage : usage_t).

End Part.

Inductive Role : Type := system | user | assistant | tool.

(** The content parts of the SDK's prompt; only what a text part carries
    is ever read. *)
Inductive ContentPart : Type :=
| TextPart (text : jsstring)
| FilePart
| ReasoningPart (text : jsstring)
| ToolCallPart
| ToolResultPart.

(** A message's content is a string (a system message) or an array of
    parts. *)
Record Message : Type := {
  role : Role;
  content : jsstring + list ContentPart
}.

Record CallOptions : Type := {
  prompt : list Message;
  headers : option (gmap jsstring (option jsstring));
  abortSignal : option nat;
  providerOptions : option (list (jsstring * json))
}.

Record RequestBody : Type := {
  model_id : jsstring;
  messages : list (Role * jsstring);
  thread_id : option json;
  initial_context : option json
}.

Module Request.
Record t : Type := Make {
  url : jsstring;
  method : jsstring;
  headers : gmap jsstring (option jsstring);
  body : RequestBody;
  signal : option nat
}.
End Request.

(** A response: [text] is what [response.text()] resolves to, [body] the
    chunks the decoded body delivers, [None] for a null body. *)
Module Response.
Record t : Type := Make {
  ok : bool;
  status : N;
  statusText : jsstring;
  text : jsstring;
  body : option (list jsstring)
}.
End Response.

Inductive LogEntry : Type :=
| ReceivedRawChunk (chunk : jsstring)
| SkippingInvalidBackendEvent
| ParsedAndValidatedEvent (event : Event.t)
| UnknownStreamEventType
| FailedToParseSseMessageJson (jsonString : jsstring) (error : Exception).

(** What a call does to the outside: a network request, a part put on the
    output stream, a line on the console. *)
Inductive effect : Type :=
| Fetch (request : Request.t)
| Enqueue (part : Part.t)
| Log (entry : LogEntry).

(** ** Computations: a trace of effects and a completion *)

Inductive completion (A : Type) : Type :=
| Normal (a : A)
| Throw (e : Exception).
Arguments Normal {A} a.
Arguments Throw {A} e.

Definition M (A : Type) : Type := list effect * completion A.

#[global] Instance M_ret : MRet M := fun A a => ([], Normal a).

#[global] Instance M_bind : MBind M := fun A B k m =>
  match m with
  | (tr, Normal a) => let '(tr', c) := k a in (tr ++ tr', c)
  | (tr, Throw e) => (tr, Throw e)
  end.

Definition throw {A : Type} (e : Exception) : M A := ([], Throw e).

Definition perform (e : effect) : M unit := ([e], Normal tt).

(** [try { body } catch (e) { handler }]. *)
Definition try_catch {A : Type} (body : M A) (handler : Exception -> M A) : M A :=
  match body with
  | (tr, Normal a) => (tr, Normal a)
  | (tr, Throw e) => let '(tr', c) := handler e in (tr ++ tr', c)
  end.

Definition trace {A : Type} (m : M A) : list effect := fst m.
Definition outcome {A : Type} (m : M A) : completion A := snd m.

(** A computation that completes normally, whatever its trace. *)
Definition returns {A : Type} (m : M A) (a : A) : Prop := outcome m = Normal a.

(** The parts put on the output stream, in order. *)
Definition enqueued (tr : list effect) : list Part.t :=
  omap (fun e => match e with Enqueue p => Some p | _ => None end) tr.

(** [x ?? d] *)
Definition nullish {A : Type} (x : option A) (d : A) : A :=
  match x with Some v => v | None => d end.
Infix "??" := nullish (at level 45, left associativity).

(** Truthiness of a value that is a string or [undefined]. *)
Definition truthy (x : option jsstring) : bool :=
  match x with Some (_ :: _) => true | _ => false end.

(** ** Frames, after the spec's words

    "Append each incoming chunk to an internal buffer; repeatedly search
    for the double-newline frame separator; while found, slice off and
    yield everything before it as a frame, then drop the separator and
    continue scanning the remainder; stop when no separator remains,
    leaving the remainder buffered."  [spec_split] reads a whole text that
    way, in one pass from left to right: the frames, and the remainder
    after the last separator. *)
Fixpoint spec_split (s : jsstring) : list jsstring * jsstring :=
  match s with
  | [] => ([], [])
  | c :: s' =>
      match s' with
      | d :: s'' =>
          if N.eqb c 10 && N.eqb d 10
          then let '(fs, r) := spec_split s'' in ([] :: fs, r)
          else let '(fs, r) := spec_split s' in
               match fs with
               | [] => ([], c :: r)
               | f :: fs' => ((c :: f) :: fs', r)
               end
      | [] => ([], [c])
      end
  end.

Definition spec_frames (s : jsstring) : list jsstring := fst (spec_split s).
Definition spec_remainder (s : jsstring) : jsstring := snd (spec_split s).

(** ** The language model *)

Record LarsLanguageModelConfig : Type := {
  config_modelId : jsstring;
  config_baseURL : option jsstring;
  config_debug : option bool
}.

Record LarsLanguageModel : Type := {
  modelId : jsstring;
  baseURL : jsstring;
  debug : bool
}.

(** The constructor; [env] is [process.env.LARS_API_BASE_URL] where there
    is a [process], and [undefined] otherwise. *)
Definition constructor (config : LarsLanguageModelConfig) (env : option jsstring)
  : LarsLanguageModel :=
  {| modelId := config_modelId config;
     baseURL := match config_baseURL config with
                | Some u => u
                | None => env ?? lit "http://127.0.0.1:8000"
                end;
     debug := config_debug config ?? false |}.

Definition separator : jsstring := [10; 10]%N.
Definition done_marker : jsstring := lit "data: [DONE]".
Definition data_prefix : jsstring := lit "data: ".

(** The index [indexOf] returns is -1 or a position: what the loop below
    needs in order to end. *)
Lemma indexOf_from_lower (s p : jsstring) (i : Z) :
  indexOf_from s p i = -1 \/ i <= indexOf_from s p i.
Proof.
  revert i; induction s as [|c s IH]; intros i; simpl.
  - destruct (startsWith [] p); [right; lia | left; reflexivity].
  - destruct (startsWith (c :: s) p); [right; lia|].
    destruct (IH (i + 1)) as [H | H]; [left; exact H | right; lia].
Qed.

Section Transcoder.

(** [JSON.parse]: [None] where it throws a SyntaxError. *)
Variable JSON_parse : jsstring -> option json.

Variable self : LarsLanguageModel.

Definition log (entry : LogEntry) : M unit :=
  if debug self then perform (Log entry) else mret tt.

(** [controller.enqueue(part)], on a stream that takes the part (its
    readable side is neither closed nor in error). *)
Definition enqueue (part : Part.t) : M unit := perform (Enqueue part).

Definition parse_json (s : jsstring) : M json :=
  match JSON_parse s with
  | Some j => mret j
  | None => throw SyntaxError
  end.

(** The [switch] over [event.type]: a valid event to its stream parts.
    [if (event.data)] holds of every object, [if (event.delta)] of every
    string but the empty one. *)
Definition translate (event : Event.t) : M unit :=
  match Event.type event with
  | Event.Start => enqueue (Part.StreamStart [])
  | Event.Metadata =>
      match Event.data event with
      | Some d => enqueue (Part.Data d)
      | None => mret tt
      end
  | Event.ReasoningStart =>
      enqueue (Part.ReasoningStart (Event.id event ?? lit "reasoning-block"))
  | Event.ReasoningDelta =>
      match Event.delta event with
      | Some (c :: delta) =>
          enqueue (Part.ReasoningDelta (Event.id event ?? lit "reasoning-block")
                     (c :: delta))
      | _ => mret tt
      end
  | Event.ReasoningEnd =>
      enqueue (Part.ReasoningEnd (Event.id event ?? lit "reasoning-block"))
  | Event.TextStart =>
      enqueue (Part.TextStart (Event.id event ?? lit "text-block"))
  | Event.TextDelta =>
      match Event.delta event with
      | Some (c :: delta) =>
          enqueue (Part.TextDelta (Event.id event ?? lit "text-block")
                     (c :: delta))
      | _ => mret tt
      end
  | Event.TextEnd =>
      enqueue (Part.TextEnd (Event.id event ?? lit "text-block"))
  | Event.Error =>
      enqueue (Part.Error
                 (Error (Event.errorText event
                         ?? lit "An unknown backend error occurred.")))
  | Event.Finish =>
      enqueue (Part.Finish
                 (Event.finishReason event ?? lit "stop")
                 {| Part.inputTokens :=
                      (Event.inputTokens <$> Event.usage event) ?? integer 0;
                    Part.outputTokens :=
                      (Event.outputTokens <$> Event.usage event) ?? integer 0;
                    Part.totalTokens :=
                      (Event.totalTokens <$> Event.usage event) ?? integer 0;
                    Part.reasoningTokens :=
                      Event.usage event ≫= Event.reasoningTokens |})
  | Event.Done => mret tt
  end.

(** The guard of the first [continue]. *)
Definition skipped (message : jsstring) : bool :=
  bool_decide (trim message = []) || startsWith message done_marker.

(** The [try] statement: parse, validate, translate; the handler logs. *)
Definition decode (jsonString : jsstring) : M unit :=
  try_catch
    (json ← parse_json jsonString;
     match safeParse larsBackendStreamEventSchema json with
     | None => log SkippingInvalidBackendEvent
     | Some event =>
         log (ParsedAndValidatedEvent event);;
         translate event
     end)
    (fun error => log (FailedToParseSseMessageJson jsonString error)).

(** One turn of the loop for the message sliced off the buffer. *)
Definition handle (message : jsstring) : M unit :=
  if skipped message then mret tt
  else decode (replace_anchored message data_prefix []).

Definition inspect {A : Type} (a : A) : {b : A | a = b} := exist _ a eq_refl.

(** [while (true) { ... }] over the buffer; the result is the buffer the
    loop leaves behind. *)
Equations? process (buffer : jsstring) : M jsstring by wf (length buffer) lt :=
  process buffer with inspect (indexOf buffer separator) := {
    | exist _ separatorIndex Hidx with inspect (Z.eqb separatorIndex (-1)) := {
      | exist _ true _ => mret buffer
      | exist _ false Hne =>
          handle (slice buffer 0 (Some separatorIndex));;
          process (slice buffer (separatorIndex + 2) None) } }.
Proof.
  apply Z.eqb_neq in Hne.
  destruct (indexOf_from_lower buffer separator 0) as [H | H];
    [contradiction|].
  fold (indexOf buffer separator) in H.
  destruct buffer as [|c buffer]; [exfalso; apply Hne; reflexivity|].
  unfold slice. rewrite length_take, length_drop.
  destruct (Z.ltb_spec (indexOf (c :: buffer) separator + 2) 0); [lia|].
  simpl length in *. lia.
Qed.

(** [transform(chunk, controller)], on the buffer the stream holds. *)
Definition transform (buffer chunk : jsstring) : M jsstring :=
  log (ReceivedRawChunk chunk);;
  process (buffer ++ chunk).

(** The transform stream at work: [transform] is called on the chunks one
    after the other, each call starting from the buffer the one before
    left; an exception ends the stream. *)
Fixpoint pipe (buffer : jsstring) (chunks : list jsstring) : M jsstring :=
  match chunks with
  | [] => mret buffer
  | chunk :: chunks' => buffer' ← transform buffer chunk; pipe buffer' chunks'
  end.

Definition pipeThrough (chunks : list jsstring) : M jsstring := pipe [] chunks.

(** *** The call *)

(** The network: what [fetch] resolves to for a request, or the exception
    it rejects with. *)
Variable network : Request.t -> completion Response.t.

(** The operand [errorJson.detail || errorText] of the first error
    message, as a string; reading [detail] off [null] throws. *)
Variable detail_or : json -> jsstring -> completion jsstring.

Definition lift {A : Type} (c : completion A) : M A := ([], c).

Definition fetch (request : Request.t) : M Response.t :=
  perform (Fetch request);; lift (network request).

Definition part_type (part : ContentPart) : jsstring :=
  match part with
  | TextPart _ => lit "text"
  | FilePart => lit "file"
  | ReasoningPart _ => lit "reasoning"
  | ToolCallPart => lit "tool-call"
  | ToolResultPart => lit "tool-result"
  end.

(** What [for (const part of message.content)] visits, by the [type]
    property of each element: the characters of a string have none. *)
Definition part_types (message : Message) : list (option jsstring) :=
  match content message with
  | inl s => (fun _ => None) <$> iterate s
  | inr parts => (fun part => Some (part_type part)) <$> parts
  end.

(** A value that is a string or [undefined], inside a template literal. *)
Definition template (x : option jsstring) : jsstring := x ?? lit "undefined".

Definition unsupported_input (type : option jsstring) : Exception :=
  UnsupportedFunctionalityError
    (lit "Input type '" ++ template type
     ++ lit "' is not supported by this model.").

(** [part.type !== 'text'] *)
Definition not_text (type : option jsstring) : bool :=
  negb (bool_decide (type = Some (lit "text"))).

Definition check_part (type : option jsstring) : M unit :=
  if not_text type
  then throw (unsupported_input type)
  else mret tt.

(** [message.content.map(...).join('')]; a string has no [map]. *)
Definition content_text (message : Message) : M jsstring :=
  match content message with
  | inl _ => throw TypeError
  | inr parts =>
      mret (concat ((fun part => match part with
                                 | TextPart text => text
                                 | _ => []
                                 end) <$> parts))
  end.

Definition combineHeaders (a b : gmap jsstring (option jsstring))
  : gmap jsstring (option jsstring) := b ∪ a.

Definition default_headers : gmap jsstring (option jsstring) :=
  {[ lit "Content-Type" := Some (lit "application/json");
     lit "Accept" := Some (lit "text/event-stream") ]}.

Definition authorization (options : CallOptions) : option jsstring :=
  h ← headers options; mjoin (h !! lit "Authorization").

Definition authentication_error : Exception :=
  Error (lit "Authentication error: Authorization header is missing. Please provide a valid bearer token.").

(** The rest of the call, once the response is there: the status check,
    whose first error is thrown inside the [try] block and so replaced by
    the handler's, the check of the body, and the stream. *)
Definition receive (response : Response.t) : M unit :=
  (if negb (Response.ok response)
   then
     let errorText := Response.text response in
     try_catch
       (errorJson ← parse_json errorText;
        detail ← lift (detail_or errorJson errorText);
        throw (Error (lit "API call failed with status "
                      ++ decimal (Response.status response) ++ lit ": " ++ detail)))
       (fun e =>
          throw (Error (lit "API call failed with status "
                        ++ decimal (Response.status response) ++ lit " "
                        ++ Response.statusText response ++ lit ": " ++ errorText)))
   else mret tt);;
  match Response.body response with
  | None => throw (Error (lit "API response body is null."))
  | Some chunks => pipeThrough chunks;; mret tt
  end.

Definition doStream (options : CallOptions) : M unit :=
  (if negb (truthy (authorization options))
   then throw authentication_error
   else mret tt);;
  mapM (fun message => mapM check_part (part_types message)) (prompt options);;
  let url := baseURL self ++ lit "/api/v1/chat" in
  let threadId := providerOptions options ≫= get (lit "threadId") in
  let initialContext := providerOptions options ≫= get (lit "initialContext") in
  messages ← mapM (fun message =>
                     text ← content_text message; mret (role message, text))
                  (prompt options);
  let requestBody :=
    {| model_id := modelId self;
       messages := messages;
       thread_id := threadId;
       initial_context := initialContext |} in
  response ← fetch {| Request.url := url;
                      Request.method := lit "POST";
                      Request.headers :=
                        combineHeaders default_headers (headers options ?? ∅);
                      Request.body := requestBody;
                      Request.signal := abortSignal options |};
  receive response.

(** *** Notions the properties are stated with *)

(** The backend event a frame carries: the frame is not one the guard
    skips, and its payload parses and validates. *)
Definition event_of (message : jsstring) : option Event.t :=
  if skipped message then None
  else json ← JSON_parse (replace_anchored message data_prefix []);
       safeParse larsBackendStreamEventSchema json.

(** The valid backend events of a text, in arrival order. *)
Definition backend_events (text : jsstring) : list Event.t :=
  omap event_of (spec_frames text).

(** The parts a valid event is translated to. *)
Definition parts_of (event : Event.t) : list Part.t :=
  enqueued (trace (translate event)).

(** The text of the response as a consumer assembles it: the [delta]s of
    the [text-delta] parts, concatenated. *)
Definition text_of (parts : list Part.t) : jsstring :=
  concat (omap (fun part => match part with
                            | Part.TextDelta _ delta => Some delta
                            | _ => None
                            end) parts).

(** The non-empty [delta]s of the [text-delta] events. *)
Definition text_deltas (events : list Event.t) : list jsstring :=
  omap (fun event => match Event.type event, Event.delta event with
                     | Event.TextDelta, Some (c :: delta) => Some (c :: delta)
                     | _, _ => None
                     end) events.

(** The first element the check of the prompt stops at, by its [type]. *)
Definition offending (options : CallOptions) : option (option jsstring) :=
  List.find not_text (flat_map part_types (prompt options)).

End Transcoder.

(** ** The discard rule of the loop *)

(** A frame is discarded when handling it does nothing at all: no part,
    no line on the console, no use of the parser, whatever the parser
    does and whatever the model is. *)
Definition discarded (message : jsstring) : Prop :=
  forall JSON_parse self, handle JSON_parse self message = ([], Normal tt).

(** The rule as the spec words it: empty after trimming, or equal to the
    marker. *)
Definition spec_discard_rule (message : jsstring) : Prop :=
  discarded message <-> trim message = [] \/ message = done_marker.

(** ** Instances *)

(** The model the provider registers, and the same with the debug log on
    as the test script sets it. *)
Definition caselaw : LarsLanguageModel :=
  constructor {| config_modelId := lit "caselaw";
                 config_baseURL := None;
                 config_debug := None |} None.

Definition caselaw_debug : LarsLanguageModel :=
  {| modelId := modelId caselaw; baseURL := baseURL caselaw; debug := true |}.

(** A frame on the wire: the text and the separator after it. *)
Definition wire (frame : string) : jsstring := jlit frame ++ separator.

(** The scenario of the spec: seven frames, six parts, and the text
    [Hi there]. *)
Definition scenario : jsstring :=
  wire "data: {'type':'start'}"
  ++ wire "data: {'type':'text-start','id':'t1'}"
  ++ wire "data: {'type':'text-delta','id':'t1','delta':'Hi'}"
  ++ wire "data: {'type':'text-delta','id':'t1','delta':' there'}"
  ++ wire "data: {'type':'text-end','id':'t1'}"
  ++ wire "data: {'type':'finish','finishReason':'stop'}"
  ++ wire "data: [DONE]".

(** The second scenario: the chunk boundary falls inside the frame. *)
Definition split_head : jsstring := jlit "data: {'type':'text-delta','del".
Definition split_tail : jsstring := jlit "ta':'X'}".

(** A frame that begins with the marker and goes on after it. *)
Definition done_and_more : jsstring := lit "data: [DONE] and more".

Definition bogus : jsstring := jlit "data: {'type':'bogus'}".

(** A call without headers and with a file in the prompt, and the same
    call with a bearer token. *)
Definition file_prompt : list Message :=
  [ {| role := user; content := inr [TextPart (lit "Summarise"); FilePart] |} ].

Definition call_without_headers : CallOptions :=
  {| prompt := file_prompt; headers := None;
     abortSignal := None; providerOptions := None |}.

Definition call_with_token : CallOptions :=
  {| prompt := file_prompt;
     headers := Some {[ lit "Authorization" := Some (lit "Bearer token") ]};
     abortSignal := None; providerOptions := None |}.

Definition offline (request : Request.t) : completion Response.t :=
  Throw TypeError.
Definition plain_detail (errorJson : json) (errorText : jsstring)
  : completion jsstring := Normal errorText.

Definition metadata_frame : jsstring :=
  jlit "data: {'type':'metadata','data':{'k':1}}".

Definition metadata_event : Event.t :=
  Event.Make Event.Metadata None None None None None None None
    (Some [(lit "k", JNumber (integer 1))]).

Definition bare_start : jsstring := jlit "{'type':'start'}".

Definition finish_frame : jsstring := jlit "data: {'type':'finish'}".

Definition finish_event : Event.t :=
  Event.Make Event.Finish None None None None None None None None.

Definition finish_usage_frame : jsstring :=
  jlit "data: {'type':'finish','finishReason':'length','usage':{'inputTokens':12,'outputTokens':30,'totalTokens':42}}".

Definition finish_usage_event : Event.t :=
  Event.Make Event.Finish None None None None (Some (lit "length"))
    (Some (Event.Usage (integer 12) (integer 30) None (integer 42))) None None.

Definition delta_event : Event.t :=
  Event.Make Event.TextDelta None None (Some (lit "X")) None None None None None.

Definition reasoning_event : Event.t :=
  Event.Make Event.ReasoningStart None (Some (lit "r7")) None None None None
    None None.

(** The events the frames of the scenario carry, frame by frame: the last
    frame is the marker and carries none. *)
Definition scenario_events : list (option Event.t) :=
  [ Some (Event.Make Event.Start None None None None None None None None);
    Some (Event.Make Event.TextStart None (Some (lit "t1")) None None None
            None None None);
    Some (Event.Make Event.TextDelta None (Some (lit "t1")) (Some (lit "Hi"))
            None None None None None);
    Some (Event.Make Event.TextDelta None (Some (lit "t1"))
            (Some (lit " there")) None None None None None);
    Some (Event.Make Event.TextEnd None (Some (lit "t1")) None None None
            None None None);
    Some (Event.Make Event.Finish None None None None (Some (lit "stop"))
            None None None);
    None ].

(** The beginning of a next frame. *)
Definition next_head : jsstring := jlit "data: {'ty".

(** ** Further notions *)

(** The lines the console got, and the requests that went out. *)
Definition logged (tr : list effect) : list LogEntry :=
  omap (fun e => match e with Log l => Some l | _ => None end) tr.

Definition fetched (tr : list effect) : list Request.t :=
  omap (fun e => match e with Fetch r => Some r | _ => None end) tr.

(** A message the call accepts: an array of text parts. *)
Definition text_only (message : Message) : Prop :=
  exists texts : list jsstring, content message = inr (TextPart <$> texts).

(** A call the two checks let through and whose messages can be joined:
    a credential that is not empty, and text-only messages. *)
Definition well_formed (options : CallOptions) : Prop :=
  truthy (authorization options) = true
  /\ Forall text_only (prompt options).

(** A frame with its separator, as it stands in the text. *)
Definition framed (frame : jsstring) : jsstring := frame ++ separator.

(** The keys the schema of an event declares. *)
Definition declared_keys : list string :=
  [ "type"; "messageId"; "id"; "delta"; "errorText"; "finishReason";
    "usage"; "answer"; "data" ]%string.

(** An object that holds a usage: the three counts are numbers, the
    reasoning count is a number or missing. *)
Definition usage_conforms (v : option json) (usage : option Event.usage_t)
  : Prop :=
  match usage with
  | None => v = None
  | Some u =>
      exists o, v = Some (JObject o)
        /\ get (lit "inputTokens") o = Some (JNumber (Event.inputTokens u))
        /\ get (lit "outputTokens") o = Some (JNumber (Event.outputTokens u))
        /\ get (lit "reasoningTokens") o
           = JNumber <$> Event.reasoningTokens u
        /\ get (lit "totalTokens") o = Some (JNumber (Event.totalTokens u))
  end.

(** A value that holds the [data] of an event: an object, whose
    properties other than [__proto__] are the event's [data], in their
    order. *)
Definition data_conforms (v : option json)
  (data : option (list (jsstring * json))) : Prop :=
  match data with
  | None => v = None
  | Some d =>
      exists properties,
        v = Some (JObject properties)
        /\ d = List.filter (fun p => negb (bool_decide (fst p = lit "__proto__")))
                 properties
  end.

(** An object and an event with the same content: each field of the event
    is the property of that name, a missing property being an undefined
    field, and [type] is the name of the tag. *)
Definition conforms (o : list (jsstring * json)) (event : Event.t) : Prop :=
  (exists name, In (name, Event.type event) Event.tags
                /\ get (lit "type") o = Some (JString (lit name)))
  /\ get (lit "messageId") o = JString <$> Event.messageId event
  /\ get (lit "id") o = JString <$> Event.id event
  /\ get (lit "delta") o = JString <$> Event.delta event
  /\ get (lit "errorText") o = JString <$> Event.errorText event
  /\ get (lit "finishReason") o = JString <$> Event.finishReason event
  /\ usage_conforms (get (lit "usage") o) (Event.usage event)
  /\ get (lit "answer") o = Event.answer event
  /\ data_conforms (get (lit "data") o) (Event.data event).

(** ** Frames and events, after the spec's words

    "Inbound wire format: newline-delimited SSE-style frames, each
    [data: <json>]"; "frames that are empty after trimming, or [begin
    with] a sentinel termination marker, are silently discarded"; "given
    one frame's payload (the JSON body after stripping a known prefix),
    parse it as structured data and validate against the BackendEvent
    shape". *)

(** The payload of a frame: what follows the prefix [data: ], and the
    frame itself when it has none. *)
Definition spec_payload (frame : jsstring) : jsstring :=
  match frame with
  | c1 :: c2 :: c3 :: c4 :: c5 :: c6 :: payload =>
      if bool_decide ([c1; c2; c3; c4; c5; c6] = lit "data: ")
      then payload
      else frame
  | _ => frame
  end.

(** [spec_event JSON_parse frame (Some event)]: the frame carries the
    valid backend event [event], that is, it is not a discarded frame and
    its payload is the JSON text of an object with the content of
    [event].  [spec_event JSON_parse frame None]: it carries none. *)
Definition spec_event (JSON_parse : jsstring -> option json)
  (frame : jsstring) (event : option Event.t) : Prop :=
  match event with
  | Some e =>
      trim frame <> []
      /\ (forall rest, frame <> lit "data: [DONE]" ++ rest)
      /\ exists o, JSON_parse (spec_payload frame) = Some (JObject o)
                   /\ conforms o e
  | None =>
      trim frame = []
      \/ (exists rest, frame = lit "data: [DONE]" ++ rest)
      \/ (forall o e, JSON_parse (spec_payload frame) = Some (JObject o) ->
                      ~ conforms o e)
  end.

(** The message of the error a response with a failure status ends in. *)
Definition status_error (response : Response.t) : Exception :=
  Error (lit "API call failed with status "
         ++ decimal (Response.status response) ++ lit " "
         ++ Response.statusText response ++ lit ": " ++ Response.text response).

(** The request of a well-formed call: where it goes, what it carries. *)
Definition sent (self : LarsLanguageModel) (options : CallOptions)
  (request : Request.t) : Prop :=
  Request.url request = baseURL self ++ lit "/api/v1/chat"
  /\ Request.method request = lit "POST"
  /\ Request.headers request
     = combineHeaders default_headers (headers options ?? ∅)
  /\ model_id (Request.body request) = modelId self
  /\ Forall2 (fun message entry =>
                exists texts, content message = inr (TextPart <$> texts)
                              /\ entry = (role message, concat texts))
       (prompt options) (messages (Request.body request))
  /\ thread_id (Request.body request)
     = providerOptions options ≫= get (lit "threadId")
  /\ initial_context (Request.body request)
     = providerOptions options ≫= get (lit "initialContext")
  /\ Request.signal request = abortSignal options.

(** ** The provider and the test script

    [createLars(settings)] registers the models by id; the provider it
    returns looks a model up by its id ([None]: it has none of that id,
    and [languageModel] throws). *)
Definition createLars (settings_baseURL env : option jsstring)
  : gmap jsstring LarsLanguageModel :=
  {[ lit "caselaw" :=
       constructor {| config_modelId := lit "caselaw";
                      config_baseURL := settings_baseURL;
                      config_debug := None |} env ]}.

(** The payload of a [data] part. *)
Definition data_of (part : Part.t) : option (list (jsstring * json)) :=
  match part with Part.Data data => Some data | _ => None end.

(** The two variables of the reader loop of [runStreamingTest]. *)
Record Reading : Type := {
  fullResponseText : jsstring;
  receivedData : option (list (jsstring * json))
}.

(** The [switch] of the loop, for one part read off the stream. *)
Definition read (state : Reading) (part : Part.t) : Reading :=
  match part with
  | Part.Data data =>
      {| fullResponseText := fullResponseText state;
         receivedData := Some data |}
  | Part.TextDelta _ delta =>
      {| fullResponseText := fullResponseText state ++ delta;
         receivedData := receivedData state |}
  | _ => state
  end.

Definition readAll (parts : list Part.t) : Reading :=
  fold_left read parts {| fullResponseText := []; receivedData := None |}.

(** The two checks after the loop. *)
Definition verdict (state : Reading) : completion unit :=
  match receivedData state with
  | None =>
      Throw (Error (lit "Test failed: Did not receive metadata `data` part."))
  | Some _ =>
      if bool_decide (trim (fullResponseText state) = [])
      then Throw (Error (lit "Test failed: The streamed response was empty."))
      else Normal tt
  end.

(** The options [runStreamingTest] calls [doStream] with; [token] is the
    bearer token of the environment, which may be undefined. *)
Definition test_options (threadId query : jsstring) (token : option jsstring)
  : CallOptions :=
  {| prompt := [ {| role := user; content := inr [TextPart query] |} ];
     headers := Some {[ lit "Authorization"
                        := Some (lit "Bearer " ++ template token) ]};
     abortSignal := None;
     providerOptions := Some [(lit "threadId", JString threadId)] |}.

(** [runStreamingTest]: the call on [model], which is the provider's
    model of the test case with its debug flag set, then the reader loop
    over the parts of the stream and the checks.  What the script itself
    prints is left out. *)
Definition runStreamingTest (JSON_parse : jsstring -> option json)
  (network : Request.t -> completion Response.t)
  (detail_or : json -> jsstring -> completion jsstring)
  (model : LarsLanguageModel) (threadId query : jsstring)
  (token : option jsstring) : M unit :=
  let debugging := {| modelId := modelId model;
                      baseURL := baseURL model;
                      debug := true |} in
  let call := doStream JSON_parse debugging network detail_or
                (test_options threadId query token) in
  match outcome call with
  | Normal _ => (trace call, verdict (readAll (enqueued (trace call))))
  | Throw e => (trace call, Throw e)
  end.

(** ** Further instances *)

(** A call the checks let through: a token, a thread, and a user message
    of two text parts. *)
Definition plain_call : CallOptions :=
  {| prompt := [ {| role := user;
                    content := inr [TextPart (lit "Hello");
                                    TextPart (lit " world")] |} ];
     headers := Some {[ lit "Authorization" := Some (lit "Bearer token") ]};
     abortSignal := Some 7%nat;
     providerOptions := Some [(lit "threadId", JString (lit "t-1"))] |}.

(** The same call after a system message, whose content is a string. *)
Definition system_call : CallOptions :=
  {| prompt := {| role := system; content := inl (lit "Be brief") |}
               :: prompt plain_call;
     headers := headers plain_call;
     abortSignal := None;
     providerOptions := None |}.

(** A network that answers every request with the same response. *)
Definition answering (response : Response.t) (request : Request.t)
  : completion Response.t := Normal response.

Definition not_found : Response.t :=
  {| Response.ok := false; Response.status := 404;
     Response.statusText := lit "Not Found";
     Response.text := jlit "{'detail':'no such thread'}";
     Response.body := None |}.

Definition no_body : Response.t :=
  {| Response.ok := true; Response.status := 200;
     Response.statusText := lit "OK";
     Response.text := [];
     Response.body := None |}.

(** A successful response: the metadata frame, then the scenario, cut
    into two chunks inside a frame. *)
Definition streamed : Response.t :=
  {| Response.ok := true; Response.status := 200;
     Response.statusText := lit "OK";
     Response.text := [];
     Response.body := Some [ metadata_frame ++ separator ++ split_head;
                             split_tail ++ separator ++ scenario ] |}.

Definition error_frame : jsstring :=
  jlit "data: {'type':'error','errorText':'boom'}".

Definition error_event : Event.t :=
  Event.Make Event.Error None None None (Some (lit "boom")) None None None
    None.

Definition start_event : Event.t :=
  Event.Make Event.Start None None None None None None None None.

Definition empty_delta_event : Event.t :=
  Event.Make Event.TextDelta None (Some (lit "t1")) (Some []) None None None
    None None.

(** * Properties *)

(** ** The string operations *)

Lemma startsWith_app (s p : jsstring) :
  startsWith s p = true <-> exists r, s = p ++ r.
Proof.
  revert s; induction p as [|a p IH]; intros s; simpl.
  - split; [intros _; exists s; reflexivity | destruct s; reflexivity].
  - destruct s as [|b s]; simpl.
    + split; [discriminate | intros [r Hr]; discriminate].
    + rewrite andb_true_iff, N.eqb_eq, IH. split.
      * intros [-> [r ->]]. exists r. reflexivity.
      * intros [r Hr]. injection Hr as -> ->. split; [reflexivity | eauto].
Qed.

Lemma startsWith_self_app (p r : jsstring) : startsWith (p ++ r) p = true.
Proof. apply startsWith_app. exists r. reflexivity. Qed.

Lemma startsWith_nil_l (p : jsstring) : startsWith [] p = true -> p = [].
Proof. destruct p; [reflexivity | discriminate]. Qed.

Lemma cut_unfold (s p : jsstring) :
  cut s p = if startsWith s p then Some ([], drop (length p) s)
            else match s with
                 | [] => None
                 | c :: s' => '(m, r) ← cut s' p; Some (c :: m, r)
                 end.
Proof. destruct s; reflexivity. Qed.

Lemma cut_Some (s p m r : jsstring) :
  cut s p = Some (m, r) -> s = m ++ p ++ r.
Proof.
  revert m r; induction s as [|c s IH]; intros m r; rewrite cut_unfold.
  - destruct (startsWith [] p) eqn:E; [|discriminate].
    apply startsWith_nil_l in E. subst p. intros [= <- <-]. reflexivity.
  - destruct (startsWith (c :: s) p) eqn:E.
    + apply startsWith_app in E as [r' Hr']. intros [= <- <-].
      rewrite Hr', drop_app_length. reflexivity.
    + destruct (cut s p) as [[m' r']|] eqn:E'; [|discriminate].
      simpl. intros [= <- <-]. rewrite (IH m' r' eq_refl). reflexivity.
Qed.

Lemma indexOf_from_unfold (s p : jsstring) (i : Z) :
  indexOf_from s p i = if startsWith s p then i
                       else match s with
                            | [] => -1
                            | _ :: s' => indexOf_from s' p (i + 1)
                            end.
Proof. destruct s; reflexivity. Qed.

Lemma indexOf_from_cut (s p : jsstring) (i : Z) :
  indexOf_from s p i = match cut s p with
                       | Some (m, _) => i + Z.of_nat (length m)
                       | None => -1
                       end.
Proof.
  revert i; induction s as [|c s IH]; intros i.
  - destruct p; simpl; lia.
  - rewrite cut_unfold, indexOf_from_unfold.
    destruct (startsWith (c :: s) p); [simpl; lia|].
    rewrite IH. destruct (cut s p) as [[m r]|]; simpl; lia.
Qed.

Lemma indexOf_cut (s p : jsstring) :
  indexOf s p = match cut s p with
                | Some (m, _) => Z.of_nat (length m)
                | None => -1
                end.
Proof.
  unfold indexOf. rewrite indexOf_from_cut. destruct (cut s p) as [[? ?]|]; lia.
Qed.

Lemma indexOf_absent (s p : jsstring) : indexOf s p = -1 <-> cut s p = None.
Proof.
  rewrite indexOf_cut. destruct (cut s p) as [[m r]|]; split; try done; lia.
Qed.

Lemma slice_to (s : jsstring) (n : nat) :
  (n <= length s)%nat -> slice s 0 (Some (Z.of_nat n)) = take n s.
Proof.
  intros Hn. unfold slice. simpl.
  destruct (Z.ltb_spec (Z.of_nat n) 0) as [?|_]; [lia|].
  rewrite Z.min_l, (Z.min_l 0) by lia. rewrite Z.sub_0_r, Nat2Z.id. reflexivity.
Qed.

Lemma slice_from (s : jsstring) (n : nat) :
  (n <= length s)%nat -> slice s (Z.of_nat n) None = drop n s.
Proof.
  intros Hn. unfold slice.
  destruct (Z.ltb_spec (Z.of_nat n) 0) as [?|_]; [lia|].
  rewrite Z.min_l by lia. rewrite Nat2Z.id.
  apply take_ge. rewrite length_drop. lia.
Qed.

(** The two slices the loop takes at the separator's index are the two
    pieces of the cut. *)
Lemma cut_slices (s p m r : jsstring) :
  cut s p = Some (m, r) ->
  indexOf s p = Z.of_nat (length m)
  /\ slice s 0 (Some (indexOf s p)) = m
  /\ slice s (indexOf s p + Z.of_nat (length p)) None = r.
Proof.
  intros Hcut. pose proof (cut_Some _ _ _ _ Hcut) as Hs.
  rewrite indexOf_cut, Hcut. split; [reflexivity|].
  split.
  - rewrite slice_to by (rewrite Hs, length_app; lia).
    rewrite Hs. apply take_app_length.
  - rewrite <- Nat2Z.inj_add, slice_from
      by (rewrite Hs, !length_app; lia).
    rewrite Hs, app_assoc, <- length_app. apply drop_app_length.
Qed.

Lemma cut_app (a b p m r : jsstring) :
  cut a p = Some (m, r) -> cut (a ++ b) p = Some (m, r ++ b).
Proof.
  revert m r; induction a as [|c a IH]; intros m r; rewrite cut_unfold.
  - destruct (startsWith [] p) eqn:E; [|discriminate].
    apply startsWith_nil_l in E. subst p. intros [= <- <-].
    simpl. destruct b; reflexivity.
  - destruct (startsWith (c :: a) p) eqn:E.
    + apply startsWith_app in E as [r' Hr']. intros [= <- <-].
      rewrite (cut_unfold ((c :: a) ++ b)), Hr', <- app_assoc.
      rewrite startsWith_self_app, !drop_app_length. reflexivity.
    + destruct (cut a p) as [[m' r']|] eqn:E'; [|discriminate].
      intros H. cbn in H. injection H as <- <-.
      pose proof (cut_Some _ _ _ _ E') as Ha.
      rewrite (cut_unfold ((c :: a) ++ b)). simpl app.
      assert (startsWith (c :: a ++ b) p = false) as ->.
      { destruct (startsWith (c :: a ++ b) p) eqn:E2; [|reflexivity].
        exfalso. apply startsWith_app in E2 as [r2 Hr2].
        assert (startsWith (c :: a) p = true); [|congruence].
        apply startsWith_app.
        assert (length p <= length (c :: a))%nat as Hlen.
        { rewrite Ha. simpl. rewrite !length_app. lia. }
        exists (drop (length p) (c :: a)).
        rewrite <- (take_drop (length p) (c :: a)) at 1. f_equal.
        assert (take (length p) ((c :: a) ++ b) = p) as Hp.
        { simpl. rewrite Hr2. apply take_app_length. }
        rewrite take_app_le in Hp by exact Hlen. exact Hp. }
      rewrite (IH m' r' eq_refl). reflexivity.
Qed.

(** ** Computations *)

Lemma bind_Normal {A B : Type} (tr : list effect) (a : A) (k : A -> M B) :
  (tr, Normal a) ≫= k = (tr ++ trace (k a), outcome (k a)).
Proof. unfold mbind, M_bind, trace, outcome. destruct (k a); reflexivity. Qed.

Lemma bind_Throw {A B : Type} (tr : list effect) (e : Exception) (k : A -> M B) :
  (tr, Throw e) ≫= k = (tr, Throw e).
Proof. reflexivity. Qed.

Lemma bind_ret_l {A B : Type} (a : A) (k : A -> M B) : mret a ≫= k = k a.
Proof. unfold mret, M_ret. rewrite bind_Normal. destruct (k a); reflexivity. Qed.

Lemma bind_assoc {A B C : Type} (m : M A) (f : A -> M B) (g : B -> M C) :
  (m ≫= f) ≫= g = m ≫= (fun a => f a ≫= g).
Proof.
  destruct m as [tr [a|e]]; [|reflexivity].
  unfold mbind, M_bind. destruct (f a) as [tr1 [b|e1]]; [|reflexivity].
  destruct (g b) as [tr2 c]. rewrite app_assoc. reflexivity.
Qed.

Lemma enqueued_app (tr1 tr2 : list effect) :
  enqueued (tr1 ++ tr2) = enqueued tr1 ++ enqueued tr2.
Proof. apply omap_app. Qed.

Lemma returns_eq {A : Type} (m : M A) (a : A) :
  returns m a -> m = (trace m, Normal a).
Proof. destruct m as [tr c]. unfold returns. simpl. intros ->. reflexivity. Qed.

Lemma returns_bind {A B : Type} (m : M A) (k : A -> M B) (a : A) (b : B) :
  returns m a -> returns (k a) b -> returns (m ≫= k) b.
Proof.
  intros Hm Hk. rewrite (returns_eq _ _ Hm), bind_Normal. exact Hk.
Qed.

Lemma trace_bind {A B : Type} (m : M A) (k : A -> M B) (a : A) :
  returns m a -> trace (m ≫= k) = trace m ++ trace (k a).
Proof. intros Hm. rewrite (returns_eq _ _ Hm), bind_Normal. reflexivity. Qed.

Lemma outcome_bind {A B : Type} (m : M A) (k : A -> M B) (a : A) :
  returns m a -> outcome (m ≫= k) = outcome (k a).
Proof. intros Hm. rewrite (returns_eq _ _ Hm), bind_Normal. reflexivity. Qed.

Lemma trace_bind_prefix {A B : Type} (m : M A) (k : A -> M B) :
  exists rest, trace (m ≫= k) = trace m ++ rest.
Proof.
  destruct m as [tr [a|e]].
  - rewrite bind_Normal. eexists. reflexivity.
  - exists []. rewrite bind_Throw, app_nil_r. reflexivity.
Qed.

(** ** The schema, property by property *)

Lemma optional_string_spec (v : option json) (x : option jsstring) :
  Zod.optional Zod.string_ v = Some x <-> v = JString <$> x.
Proof.
  destruct v as [[]|], x as [x|]; cbn; split; intros H;
    try discriminate; try reflexivity; try congruence.
Qed.

Lemma number_spec (v : option json) (n : number) :
  Zod.number_ v = Some n <-> v = Some (JNumber n).
Proof.
  destruct v as [[]|]; cbn; split; intros H; try discriminate; congruence.
Qed.

Lemma optional_number_spec (v : option json) (x : option number) :
  Zod.optional Zod.number_ v = Some x <-> v = JNumber <$> x.
Proof.
  destruct v as [[]|], x as [x|]; cbn; split; intros H;
    try discriminate; try reflexivity; try congruence.
Qed.

Lemma optional_record_spec (v : option json)
  (x : option (list (jsstring * json))) :
  Zod.optional Zod.record_unknown v = Some x <-> data_conforms v x.
Proof.
  unfold data_conforms.
  destruct v as [[| | | | |o]|], x as [x|]; cbn; split; intros H;
    try discriminate; try reflexivity;
    try (destruct H as (properties & H & _); discriminate H).
  - injection H as <-. exists o. split; reflexivity.
  - destruct H as (properties & [= <-] & ->). reflexivity.
Qed.

Lemma usage_spec (v : option json) (u : Event.usage_t) :
  usageSchema v = Some u <-> usage_conforms v (Some u).
Proof.
  unfold usageSchema, Zod.object, usage_conforms, Zod.field.
  destruct v as [[| | | | |o]|];
    try (split; [discriminate | intros (o' & H & _); discriminate H]).
  rewrite !bind_Some. split.
  - intros (i & Hi & H). apply bind_Some in H as (j & Hj & H).
    apply bind_Some in H as (r & Hr & H). apply bind_Some in H as (t & Ht & H).
    injection H as <-. exists o.
    cbn [Event.inputTokens Event.outputTokens Event.reasoningTokens
         Event.totalTokens].
    apply number_spec in Hi, Hj, Ht. apply optional_number_spec in Hr.
    auto.
  - intros (o' & [= <-] & Hi & Hj & Hr & Ht). destruct u as [i j r t].
    cbn [Event.inputTokens Event.outputTokens Event.reasoningTokens
         Event.totalTokens] in *.
    exists i. split; [apply number_spec, Hi|].
    apply bind_Some. exists j. split; [apply number_spec, Hj|].
    apply bind_Some. exists r. split; [apply optional_number_spec, Hr|].
    apply bind_Some. exists t. split; [apply number_spec, Ht|]. reflexivity.
Qed.

Lemma optional_usage_spec (v : option json) (x : option Event.usage_t) :
  Zod.optional usageSchema v = Some x <-> usage_conforms v x.
Proof.
  destruct v as [j|], x as [u|]; unfold Zod.optional.
  - rewrite <- usage_spec. destruct (usageSchema (Some j)); cbn;
      split; intros H; congruence.
  - destruct (usageSchema (Some j)); cbn; split; intros H; discriminate.
  - split; [discriminate | intros (o & H & _); discriminate H].
  - split; reflexivity.
Qed.

Lemma enum_spec (v : option json) (tag : Event.tag) :
  Zod.enum Event.tags v = Some tag
  <-> exists name, In (name, tag) Event.tags
                   /\ v = Some (JString (lit name)).
Proof.
  unfold Zod.enum. split.
  - intros H. apply bind_Some in H as (s & Hs & H).
    destruct v as [[]|]; try discriminate Hs. injection Hs as ->.
    apply fmap_Some in H as ([name tag'] & Hfind & ->).
    apply find_some in Hfind as [Hin Heq]. cbn in Heq.
    apply bool_decide_eq_true in Heq. subst s. exists name. auto.
  - intros (name & Hin & ->). cbn [Zod.string_ mbind option_bind].
    cbn in Hin.
    repeat (destruct Hin as [[= <- <-] | Hin]; [vm_compute; reflexivity|]).
    destruct Hin.
Qed.

Lemma safeParse_conforms (o : list (jsstring * json)) (event : Event.t) :
  safeParse larsBackendStreamEventSchema (JObject o) = Some event
  <-> conforms o event.
Proof.
  unfold safeParse, larsBackendStreamEventSchema, Zod.object, conforms,
    Zod.field.
  split.
  - intros H. apply bind_Some in H as (ty & Hty & H).
    apply bind_Some in H as (mi & Hmi & H).
    apply bind_Some in H as (i & Hi & H).
    apply bind_Some in H as (d & Hd & H).
    apply bind_Some in H as (e & He & H).
    apply bind_Some in H as (f & Hf & H).
    apply bind_Some in H as (u & Hu & H).
    apply bind_Some in H as (a & Ha & H).
    apply bind_Some in H as (da & Hda & H).
    injection H as <-.
    cbn [Event.type Event.messageId Event.id Event.delta Event.errorText
         Event.finishReason Event.usage Event.answer Event.data].
    apply enum_spec in Hty. apply optional_string_spec in Hmi, Hi, Hd, He, Hf.
    apply optional_usage_spec in Hu. apply optional_record_spec in Hda.
    injection Ha as <-. auto 10.
  - intros (Hty & Hmi & Hi & Hd & He & Hf & Hu & Ha & Hda).
    destruct event as [ty mi i d e f u a da].
    cbn [Event.type Event.messageId Event.id Event.delta Event.errorText
         Event.finishReason Event.usage Event.answer Event.data] in *.
    apply bind_Some. exists ty. split; [apply enum_spec, Hty|].
    apply bind_Some. exists mi. split; [apply optional_string_spec, Hmi|].
    apply bind_Some. exists i. split; [apply optional_string_spec, Hi|].
    apply bind_Some. exists d. split; [apply optional_string_spec, Hd|].
    apply bind_Some. exists e. split; [apply optional_string_spec, He|].
    apply bind_Some. exists f. split; [apply optional_string_spec, Hf|].
    apply bind_Some. exists u. split; [apply optional_usage_spec, Hu|].
    apply bind_Some. exists a. split; [unfold Zod.unknown; congruence|].
    apply bind_Some. exists da. split; [apply optional_record_spec, Hda|].
    reflexivity.
Qed.

Section Properties.

Variable JSON_parse : jsstring -> option json.
Variable self : LarsLanguageModel.
Variable network : Request.t -> completion Response.t.
Variable detail_or : json -> jsstring -> completion jsstring.

(** In this section the functions of the transcoder are those of the
    parser and the model at hand. *)
Local Abbreviation log := (log self).
Local Abbreviation decode := (decode JSON_parse self).
Local Abbreviation handle := (handle JSON_parse self).
Local Abbreviation process := (process JSON_parse self).
Local Abbreviation transform := (transform JSON_parse self).
Local Abbreviation pipe := (pipe JSON_parse self).
Local Abbreviation pipeThrough := (pipeThrough JSON_parse self).
Local Abbreviation event_of := (event_of JSON_parse).
Local Abbreviation backend_events := (backend_events JSON_parse).
Local Abbreviation fetch := (fetch network).
Local Abbreviation receive := (receive JSON_parse self detail_or).
Local Abbreviation doStream := (doStream JSON_parse self network detail_or).

(** ** Single steps complete normally *)

Lemma log_returns (entry : LogEntry) : returns (log entry) tt.
Proof. unfold log. destruct (debug self); reflexivity. Qed.

Lemma log_enqueues_nothing (entry : LogEntry) : enqueued (trace (log entry)) = [].
Proof. unfold log. destruct (debug self); reflexivity. Qed.

Lemma translate_returns (event : Event.t) : returns (translate event) tt.
Proof.
  unfold translate.
  destruct (Event.type event); try reflexivity.
  - destruct (Event.data event); reflexivity.
  - destruct (Event.delta event) as [[|c delta]|]; reflexivity.
  - destruct (Event.delta event) as [[|c delta]|]; reflexivity.
Qed.

(** The [try] statement, case by case. *)
Lemma decode_cases (jsonString : jsstring) :
  decode jsonString =
  match JSON_parse jsonString with
  | None => log (FailedToParseSseMessageJson jsonString SyntaxError)
  | Some json =>
      match safeParse larsBackendStreamEventSchema json with
      | None => log SkippingInvalidBackendEvent
      | Some event => log (ParsedAndValidatedEvent event);; translate event
      end
  end.
Proof.
  unfold decode, parse_json.
  destruct (JSON_parse jsonString) as [json|].
  - rewrite bind_ret_l.
    destruct (safeParse larsBackendStreamEventSchema json) as [event|].
    + rewrite (returns_eq _ _ (returns_bind _ _ tt tt (log_returns _)
                                 (translate_returns event))).
      reflexivity.
    + rewrite (returns_eq _ _ (log_returns _)). reflexivity.
  - unfold throw. rewrite bind_Throw. unfold try_catch.
    destruct (log _) as [tr c]. reflexivity.
Qed.

Lemma decode_returns (jsonString : jsstring) : returns (decode jsonString) tt.
Proof.
  rewrite decode_cases. destruct (JSON_parse jsonString) as [json|].
  - destruct (safeParse larsBackendStreamEventSchema json) as [event|].
    + eapply returns_bind; [apply log_returns | apply translate_returns].
    + apply log_returns.
  - apply log_returns.
Qed.

Lemma handle_returns (message : jsstring) : returns (handle message) tt.
Proof.
  unfold handle. destruct (skipped message);
    [reflexivity | apply decode_returns].
Qed.

(** ** The loop *)

Lemma process_body (buffer : jsstring) :
  process buffer =
  let separatorIndex := indexOf buffer separator in
  if separatorIndex =? -1 then mret buffer
  else handle (slice buffer 0 (Some separatorIndex));;
       process (slice buffer (separatorIndex + 2) None).
Proof.
  rewrite process_equation_1. unfold inspect at 1.
  cbn [process_unfold_clause_1].
  generalize (@eq_refl Z (indexOf buffer separator)).
  generalize (inspect (indexOf buffer separator =? -1)).
  intros [[] e] Hidx; cbn zeta.
  - transitivity (mret buffer : M jsstring); [reflexivity|].
    destruct (indexOf buffer separator =? -1); [reflexivity|discriminate].
  - transitivity
      (handle (slice buffer 0 (Some (indexOf buffer separator)));;
       process (slice buffer (indexOf buffer separator + 2) None));
      [reflexivity|].
    destruct (indexOf buffer separator =? -1); [discriminate|reflexivity].
Qed.

(** The loop in terms of [cut]: no separator, and the buffer stays as it
    is; a separator, and the message before it is handled and the loop
    goes on with what follows it. *)
Lemma process_cut (buffer : jsstring) :
  process buffer =
  match cut buffer separator with
  | None => mret buffer
  | Some (message, buffer') => handle message;; process buffer'
  end.
Proof.
  rewrite process_body. cbn zeta.
  destruct (cut buffer separator) as [[m r]|] eqn:Hcut.
  - destruct (cut_slices _ _ _ _ Hcut) as (Hi & Hm & Hr).
    change (Z.of_nat (length separator)) with 2 in Hr.
    rewrite Hm, Hr, Hi.
    destruct (Z.eqb_spec (Z.of_nat (length m)) (-1)); [lia | reflexivity].
  - apply indexOf_absent in Hcut. rewrite Hcut. reflexivity.
Qed.

Lemma cut_shorter (s m r : jsstring) :
  cut s separator = Some (m, r) -> (length r < length s)%nat.
Proof.
  intros H. rewrite (cut_Some _ _ _ _ H), !length_app. simpl. lia.
Qed.

(** Induction along the loop. *)
Lemma process_ind (P : jsstring -> Prop) :
  (forall b, cut b separator = None -> P b) ->
  (forall b m r, cut b separator = Some (m, r) -> P r -> P b) ->
  forall b, P b.
Proof.
  intros Hstop Hstep b.
  remember (length b) as n eqn:Hn. revert b Hn.
  induction n as [n IH] using lt_wf_ind. intros b ->.
  destruct (cut b separator) as [[m r]|] eqn:Hcut.
  - eapply Hstep; [exact Hcut|].
    eapply IH; [|reflexivity]. eapply cut_shorter, Hcut.
  - apply Hstop, Hcut.
Qed.

Lemma process_returns (buffer : jsstring) :
  exists buffer', returns (process buffer) buffer'
                  /\ indexOf buffer' separator = -1.
Proof.
  induction buffer as [b Hcut | b m r Hcut (b' & Hb' & Hidx)] using process_ind;
    rewrite process_cut, Hcut.
  - exists b. split; [reflexivity | apply indexOf_absent, Hcut].
  - exists b'. split; [|exact Hidx].
    eapply returns_bind; [apply handle_returns | exact Hb'].
Qed.

(** Text that arrives later does not change what the loop does with the
    text it has: the loop over [a ++ b] is the loop over [a], followed by
    the loop over what that left and [b]. *)
Lemma process_app (a b : jsstring) :
  process (a ++ b) = (a' ← process a; process (a' ++ b)).
Proof.
  induction a as [a Hcut | a m r Hcut IH] using process_ind.
  - rewrite (process_cut a), Hcut, bind_ret_l. reflexivity.
  - rewrite (process_cut (a ++ b)), (cut_app _ b _ _ _ Hcut).
    rewrite (process_cut a), Hcut, IH, bind_assoc. reflexivity.
Qed.

Lemma spec_split_step (c d : N) (s : jsstring) :
  spec_split (c :: d :: s) =
  if N.eqb c 10 && N.eqb d 10
  then let '(fs, r) := spec_split s in ([] :: fs, r)
  else let '(fs, r) := spec_split (d :: s) in
       match fs with
       | [] => ([], c :: r)
       | f :: fs' => ((c :: f) :: fs', r)
       end.
Proof. reflexivity. Qed.

Lemma spec_split_cut (s : jsstring) :
  spec_split s =
  match cut s separator with
  | None => ([], s)
  | Some (m, r) => let '(fs, r') := spec_split r in (m :: fs, r')
  end.
Proof.
  remember (length s) as n eqn:Hn. revert s Hn.
  induction n as [n IH] using lt_wf_ind. intros s ->.
  destruct s as [|c [|d s]];
    [reflexivity | |].
  { rewrite cut_unfold.
    change (startsWith [c] separator) with ((10 =? c)%N && false).
    rewrite andb_false_r. reflexivity. }
  rewrite cut_unfold.
  change (startsWith (c :: d :: s) separator)
    with ((10 =? c)%N && ((10 =? d)%N && true)).
  rewrite andb_true_r, (N.eqb_sym 10 c), (N.eqb_sym 10 d).
  rewrite spec_split_step.
  destruct (N.eqb c 10 && N.eqb d 10) eqn:E.
  - reflexivity.
  - rewrite (IH (length (d :: s)) ltac:(simpl; lia) (d :: s) eq_refl).
    destruct (cut (d :: s) separator) as [[m r]|]; cbn.
    + destruct (spec_split r). reflexivity.
    + reflexivity.
Qed.

(** The loop handles the frames of the text, one after the other, and
    leaves the remainder. *)
Lemma process_frames (buffer : jsstring) :
  process buffer =
  (flat_map (fun frame => trace (handle frame)) (spec_frames buffer),
   Normal (spec_remainder buffer)).
Proof.
  unfold spec_frames, spec_remainder.
  induction buffer as [b Hcut | b m r Hcut IH] using process_ind;
    rewrite process_cut, spec_split_cut, Hcut.
  - reflexivity.
  - rewrite IH. destruct (spec_split r) as [fs r']. cbn [fst snd flat_map].
    rewrite (returns_eq _ _ (handle_returns m)), bind_Normal. reflexivity.
Qed.

(** ** The stream *)

Lemma transform_process (buffer chunk : jsstring) :
  transform buffer chunk =
  (trace (log (ReceivedRawChunk chunk)) ++ trace (process (buffer ++ chunk)),
   outcome (process (buffer ++ chunk))).
Proof.
  unfold transform. rewrite (returns_eq _ _ (log_returns _)), bind_Normal.
  reflexivity.
Qed.

Lemma transform_returns (buffer chunk : jsstring) :
  exists buffer', returns (transform buffer chunk) buffer'
                  /\ indexOf buffer' separator = -1.
Proof.
  destruct (process_returns (buffer ++ chunk)) as (b' & Hb' & Hidx).
  exists b'. split; [|exact Hidx]. rewrite transform_process. exact Hb'.
Qed.

(** Feeding the chunks one by one puts the same parts on the stream, and
    leaves the same buffer, as one run of the loop over the whole text. *)
Lemma pipe_process (chunks : list jsstring) (buffer : jsstring) :
  indexOf buffer separator = -1 ->
  enqueued (trace (pipe buffer chunks))
  = enqueued (trace (process (buffer ++ concat chunks)))
  /\ outcome (pipe buffer chunks) = outcome (process (buffer ++ concat chunks)).
Proof.
  revert buffer; induction chunks as [|chunk chunks IH]; intros buffer Hbuf.
  - cbn [pipe concat]. rewrite app_nil_r.
    apply indexOf_absent in Hbuf. rewrite process_cut, Hbuf. split; reflexivity.
  - cbn [pipe concat].
    destruct (process_returns (buffer ++ chunk)) as (b1 & Hb1 & Hidx).
    destruct (IH b1 Hidx) as [IHtr IHout].
    assert (returns (transform buffer chunk) b1) as Ht
      by (rewrite transform_process; exact Hb1).
    rewrite app_assoc, process_app.
    rewrite (trace_bind _ _ _ Ht), (outcome_bind _ _ _ Ht).
    rewrite (trace_bind _ _ _ Hb1), (outcome_bind _ _ _ Hb1).
    rewrite !enqueued_app, IHtr, IHout, transform_process.
    cbn [trace fst]. rewrite enqueued_app, log_enqueues_nothing.
    split; reflexivity.
Qed.

(** What a run of the stream puts out: the parts of each frame of the
    whole text, frame after frame; and what it leaves in the buffer: the
    text after the last separator. *)
Lemma pipeThrough_frames (chunks : list jsstring) :
  enqueued (trace (pipeThrough chunks))
  = flat_map (fun frame => enqueued (trace (handle frame)))
      (spec_frames (concat chunks))
  /\ outcome (pipeThrough chunks) = Normal (spec_remainder (concat chunks)).
Proof.
  unfold pipeThrough.
  destruct (pipe_process chunks [] eq_refl) as [-> ->].
  rewrite app_nil_l, process_frames. cbn [trace outcome fst snd].
  split; [|reflexivity].
  induction (spec_frames (concat chunks)) as [|f fs IH]; [reflexivity|].
  cbn [flat_map]. rewrite enqueued_app, IH. reflexivity.
Qed.

(** ** Frames and events *)

Lemma handle_parts (message : jsstring) :
  enqueued (trace (handle message))
  = match event_of message with
    | Some event => parts_of event
    | None => []
    end.
Proof.
  unfold handle, event_of. destruct (skipped message); [reflexivity|].
  rewrite decode_cases.
  destruct (JSON_parse _) as [json|]; cbn [mbind option_bind].
  - destruct (safeParse larsBackendStreamEventSchema json) as [event|].
    + rewrite (trace_bind _ _ _ (log_returns _)), enqueued_app,
        log_enqueues_nothing. reflexivity.
    + apply log_enqueues_nothing.
  - apply log_enqueues_nothing.
Qed.

(** The output of a stream is the translation of the valid events of its
    text, in arrival order, and nothing else. *)
Lemma pipeThrough_events (chunks : list jsstring) :
  enqueued (trace (pipeThrough chunks))
  = flat_map parts_of (backend_events (concat chunks)).
Proof.
  destruct (pipeThrough_frames chunks) as [-> _]. unfold backend_events.
  induction (spec_frames (concat chunks)) as [|f fs IH]; [reflexivity|].
  cbn [flat_map omap list_omap]. rewrite handle_parts, IH.
  destruct (event_of f); reflexivity.
Qed.

Lemma pipeThrough_returns (chunks : list jsstring) :
  returns (pipeThrough chunks) (spec_remainder (concat chunks)).
Proof. apply pipeThrough_frames. Qed.

(** A frame followed by the separator and more text: the frame is the
    first one the loop takes off. *)
Lemma cut_frame (message rest : jsstring) :
  indexOf (message ++ separator) separator = Z.of_nat (length message) ->
  cut (message ++ separator ++ rest) separator = Some (message, rest).
Proof.
  intros Hidx. rewrite indexOf_cut in Hidx.
  destruct (cut (message ++ separator) separator) as [[m r]|] eqn:Hcut; [|lia].
  apply Nat2Z.inj in Hidx.
  pose proof (cut_Some _ _ _ _ Hcut) as Heq.
  apply app_inj_1 in Heq as [-> Heq]; [|congruence].
  rewrite <- (app_nil_r separator) in Heq at 1.
  apply app_inv_head in Heq. subst r.
  rewrite app_assoc. apply (cut_app _ rest _ _ _ Hcut).
Qed.

Lemma spec_frames_frame (message rest : jsstring) :
  indexOf (message ++ separator) separator = Z.of_nat (length message) ->
  spec_frames (message ++ separator ++ rest) = message :: spec_frames rest.
Proof.
  intros Hidx. unfold spec_frames.
  rewrite spec_split_cut, (cut_frame _ _ Hidx).
  destruct (spec_split rest). reflexivity.
Qed.

Lemma spec_split_app (a b : jsstring) :
  spec_split (a ++ b)
  = (spec_frames a ++ spec_frames (spec_remainder a ++ b),
     spec_remainder (spec_remainder a ++ b)).
Proof.
  unfold spec_frames, spec_remainder.
  induction a as [a Hcut | a m r Hcut IH] using process_ind.
  - rewrite (spec_split_cut a), Hcut. cbn [fst snd app].
    destruct (spec_split (a ++ b)); reflexivity.
  - rewrite (spec_split_cut (a ++ b)), (cut_app _ b _ _ _ Hcut), IH.
    rewrite (spec_split_cut a), Hcut.
    destruct (spec_split r) as [fs r']. reflexivity.
Qed.

Lemma spec_frames_app (a b : jsstring) :
  spec_remainder a = [] -> spec_frames (a ++ b) = spec_frames a ++ spec_frames b.
Proof.
  intros Ha. unfold spec_frames at 1. rewrite spec_split_app, Ha. reflexivity.
Qed.

Lemma backend_events_app (a b : jsstring) :
  spec_remainder a = [] ->
  backend_events (a ++ b) = backend_events a ++ backend_events b.
Proof.
  intros Ha. unfold backend_events. rewrite (spec_frames_app _ _ Ha).
  apply omap_app.
Qed.

(** ** Frames and the events they carry *)

(** The piece before the first occurrence of a pattern holds none. *)
Lemma cut_before (s p m r : jsstring) :
  p <> [] -> cut s p = Some (m, r) -> cut m p = None.
Proof.
  intros Hp Hcut. destruct (cut m p) as [[m' r']|] eqn:Hm; [|reflexivity].
  exfalso. pose proof (cut_Some _ _ _ _ Hcut) as Hs.
  pose proof (cut_Some _ _ _ _ Hm) as Hm'.
  apply (cut_app _ (p ++ r)) in Hm. rewrite <- Hs, Hcut in Hm.
  injection Hm as Hmm _. apply (f_equal (@length N)) in Hm'.
  rewrite Hmm, !length_app in Hm'. destruct p; [congruence|]. simpl in Hm'. lia.
Qed.

Lemma spec_split_join (s : jsstring) :
  concat (framed <$> spec_frames s) ++ spec_remainder s = s.
Proof.
  unfold spec_frames, spec_remainder.
  induction s as [s Hcut | s m r Hcut IH] using process_ind;
    rewrite spec_split_cut, Hcut.
  - reflexivity.
  - destruct (spec_split r) as [fs r']. cbn [fst snd] in IH |- *.
    cbn [fmap list_fmap concat]. unfold framed at 1.
    rewrite <- !app_assoc, IH. symmetry. apply (cut_Some _ _ _ _ Hcut).
Qed.

Lemma spec_frames_no_separator (s : jsstring) :
  Forall (fun frame => indexOf frame separator = -1) (spec_frames s).
Proof.
  unfold spec_frames.
  induction s as [s Hcut | s m r Hcut IH] using process_ind;
    rewrite spec_split_cut, Hcut.
  - constructor.
  - destruct (spec_split r) as [fs r']. cbn [fst] in IH |- *.
    constructor; [|exact IH].
    apply indexOf_absent. apply (cut_before s separator m r); [discriminate|].
    exact Hcut.
Qed.

Lemma spec_payload_replace (frame : jsstring) :
  spec_payload frame = replace_anchored frame data_prefix [].
Proof.
  unfold replace_anchored, spec_payload.
  change data_prefix with [100; 97; 116; 97; 58; 32]%N.
  change (lit "data: ") with [100; 97; 116; 97; 58; 32]%N.
  do 6 (destruct frame as [|? frame];
        [cbn [startsWith]; rewrite ?andb_false_r; reflexivity|]).
  case_bool_decide as H.
  - injection H as -> -> -> -> -> ->. reflexivity.
  - cbn [startsWith].
    repeat match goal with
           | |- context [N.eqb ?a ?b] =>
               destruct (N.eqb_spec a b);
               [subst | cbn [andb]; rewrite ?andb_false_r; reflexivity]
           end.
    destruct H. reflexivity.
Qed.

Lemma skipped_rule (frame : jsstring) :
  skipped frame = true
  <-> trim frame = [] \/ exists rest, frame = lit "data: [DONE]" ++ rest.
Proof.
  unfold skipped. rewrite orb_true_iff, bool_decide_eq_true.
  rewrite (startsWith_app frame done_marker). reflexivity.
Qed.

(** The event the code reads off a frame is the one the frame carries. *)
Lemma spec_event_of (frame : jsstring) (event : option Event.t) :
  spec_event JSON_parse frame event <-> event_of frame = event.
Proof.
  unfold spec_event, event_of. rewrite <- spec_payload_replace.
  destruct (skipped frame) eqn:Hskip.
  - apply skipped_rule in Hskip. destruct event as [e|].
    + split; [|discriminate]. intros (Htrim & Hdone & _).
      destruct Hskip as [H | [rest H]];
        [destruct (Htrim H) | destruct (Hdone rest H)].
    + split; [reflexivity|]. intros _.
      destruct Hskip as [H | H]; auto.
  - assert (trim frame <> []
            /\ forall rest, frame <> lit "data: [DONE]" ++ rest)
      as [Htrim Hdone].
    { split.
      - intros H. assert (skipped frame = true) as Habs
          by (apply skipped_rule; auto). congruence.
      - intros rest H. assert (skipped frame = true) as Habs
          by (apply skipped_rule; eauto). congruence. }
    destruct event as [e|].
    + split.
      * intros (_ & _ & o & -> & Hconf). cbn [mbind option_bind].
        apply safeParse_conforms, Hconf.
      * intros H. split; [exact Htrim|]. split; [exact Hdone|].
        destruct (JSON_parse (spec_payload frame)) as [j|];
          [|discriminate H].
        cbn [mbind option_bind] in H.
        destruct j as [| | | | |o]; try discriminate H.
        exists o. split; [reflexivity | apply safeParse_conforms, H].
    + split.
      * intros [H | [[rest H] | H]];
          [destruct (Htrim H) | destruct (Hdone rest H) |].
        destruct (JSON_parse (spec_payload frame)) as [j|]; [|reflexivity].
        cbn [mbind option_bind].
        destruct (safeParse larsBackendStreamEventSchema j) as [e|] eqn:He;
          [|reflexivity].
        destruct j as [| | | | |o]; try discriminate He.
        destruct (H o e eq_refl). apply safeParse_conforms, He.
      * intros H. right. right. intros o e Hparse Hconf.
        rewrite Hparse in H. cbn [mbind option_bind] in H.
        apply safeParse_conforms in Hconf. congruence.
Qed.

(** The events the frames of a text carry are the events the code reads
    off it: every text has them, and they are determined. *)
Lemma spec_events_of (text : jsstring) (events : list (option Event.t)) :
  Forall2 (spec_event JSON_parse) (spec_frames text) events
  <-> events = event_of <$> spec_frames text.
Proof.
  revert events. induction (spec_frames text) as [|frame frames IH];
    intros events.
  - split; [intros H; inversion H; reflexivity | intros ->; constructor].
  - split.
    + intros H. inversion H as [|f e fs es Hev Hrest]; subst.
      apply spec_event_of in Hev. apply IH in Hrest. subst. reflexivity.
    + intros ->. constructor; [apply spec_event_of; reflexivity|].
      apply IH. reflexivity.
Qed.

Lemma spec_events_backend (text : jsstring) (events : list (option Event.t)) :
  Forall2 (spec_event JSON_parse) (spec_frames text) events ->
  backend_events text = omap id events.
Proof.
  intros H. apply spec_events_of in H. subst events. unfold backend_events.
  induction (spec_frames text) as [|frame frames IH]; [reflexivity|].
  cbn [omap list_omap fmap list_fmap]. rewrite IH.
  destruct (event_of frame); reflexivity.
Qed.

(** Text without a separator after complete frames: it adds no frame and
    is what remains. *)
Lemma spec_split_tail (before tail : jsstring) :
  spec_remainder before = [] ->
  cut tail separator = None ->
  spec_split (before ++ tail) = (spec_frames before, tail).
Proof.
  intros Hbefore Htail. rewrite spec_split_app, Hbefore. cbn [app].
  unfold spec_frames at 2, spec_remainder at 1.
  rewrite (spec_split_cut tail), Htail. cbn [fst snd].
  rewrite app_nil_r. reflexivity.
Qed.

(** The beginning of a frame holds no separator. *)
Lemma frame_head (head tail : jsstring) :
  indexOf ((head ++ tail) ++ separator) separator
  = Z.of_nat (length (head ++ tail)) ->
  cut head separator = None.
Proof.
  intros Hidx. destruct (cut head separator) as [[m r]|] eqn:Hcut;
    [|reflexivity].
  exfalso. pose proof (cut_Some _ _ _ _ Hcut) as Hhead.
  rewrite <- app_assoc in Hidx.
  rewrite indexOf_cut, (cut_app _ (tail ++ separator) _ _ _ Hcut) in Hidx.
  apply Nat2Z.inj in Hidx. rewrite Hhead, !length_app in Hidx.
  simpl in Hidx. lia.
Qed.

Lemma process_events (buffer : jsstring) :
  enqueued (trace (process buffer))
  = flat_map parts_of (backend_events buffer).
Proof.
  rewrite process_frames. cbn [trace fst]. unfold backend_events.
  induction (spec_frames buffer) as [|f fs IH]; [reflexivity|].
  cbn [flat_map omap list_omap]. rewrite enqueued_app, handle_parts, IH.
  destruct (event_of f); reflexivity.
Qed.

(** * The properties of the specification *)

(** C1.  Chunk-boundary independence: two sequences of chunks that
    concatenate to the same text put the same stream parts on the output,
    in the same order (and leave the same text in the buffer), wherever
    the chunk boundaries fall.  In particular, for a frame that carries a
    valid event and stands after complete frames: chunks that end inside
    the frame have put out what the frames before it yield and hold the
    beginning of the frame in the buffer; chunks that go on to the end of
    the frame and its separator, wherever they are cut, have put out
    after that the parts of the frame's event, once, and then what the
    text after the frame yields. *)
Theorem chunk_boundary_independence (chunks1 chunks2 : list jsstring) :
  concat chunks1 = concat chunks2 ->
  enqueued (trace (pipeThrough chunks1)) = enqueued (trace (pipeThrough chunks2))
  /\ outcome (pipeThrough chunks1) = outcome (pipeThrough chunks2)
  /\ forall before head tail rest event,
       spec_remainder before = [] ->
       spec_event JSON_parse (head ++ tail) (Some event) ->
       indexOf ((head ++ tail) ++ separator) separator
       = Z.of_nat (length (head ++ tail)) ->
       (concat chunks1 = before ++ head ->
        enqueued (trace (pipeThrough chunks2))
        = enqueued (trace (pipeThrough [before]))
        /\ returns (pipeThrough chunks2) head)
       /\ (concat chunks1 = before ++ head ++ tail ++ separator ++ rest ->
           enqueued (trace (pipeThrough chunks2))
           = enqueued (trace (pipeThrough [before]))
             ++ parts_of event
             ++ enqueued (trace (pipeThrough [rest]))).
Proof.
  intros Heq.
  destruct (pipeThrough_frames chunks1) as [Htr1 Hout1].
  destruct (pipeThrough_frames chunks2) as [Htr2 Hout2].
  split; [rewrite Htr1, Htr2, Heq; reflexivity|].
  split; [rewrite Hout1, Hout2, Heq; reflexivity|].
  intros before head tail rest event Hbefore Hevent Hidx.
  destruct (pipeThrough_frames [before]) as [Hb _].
  cbn [concat] in Hb. rewrite app_nil_r in Hb.
  rewrite <- Heq in Htr2, Hout2. split.
  - intros Htext.
    pose proof (spec_split_tail before head Hbefore (frame_head _ _ Hidx))
      as Hsplit.
    unfold spec_frames at 1 in Htr2. unfold spec_remainder in Hout2.
    rewrite Htext, Hsplit in Htr2, Hout2. cbn [fst snd] in Htr2, Hout2.
    split; [rewrite Htr2, Hb; reflexivity | exact Hout2].
  - intros Htext. destruct (pipeThrough_frames [rest]) as [Hr _].
    cbn [concat] in Hr. rewrite app_nil_r in Hr.
    rewrite Htr2, Hb, Hr, Htext.
    replace (before ++ head ++ tail ++ separator ++ rest)
      with (before ++ (head ++ tail) ++ separator ++ rest)
      by (rewrite <- !app_assoc; reflexivity).
    rewrite (spec_frames_app _ _ Hbefore), (spec_frames_frame _ _ Hidx).
    rewrite flat_map_app. cbn [flat_map].
    apply spec_event_of in Hevent. rewrite handle_parts, Hevent.
    reflexivity.
Qed.

(** The special case the spec names: a frame that arrives in two chunks
    yields nothing while it is incomplete, and what the whole frame yields
    once the rest and the separator are there. *)
Lemma split_frame_single_event (head tail : jsstring) :
  indexOf ((head ++ tail) ++ separator) separator
  = Z.of_nat (length (head ++ tail)) ->
  enqueued (trace (pipeThrough [head])) = []
  /\ enqueued (trace (pipeThrough [head; tail ++ separator]))
     = enqueued (trace (handle (head ++ tail))).
Proof.
  intros Hidx. split.
  - destruct (pipeThrough_frames [head]) as [-> _].
    cbn [concat]. rewrite app_nil_r. unfold spec_frames.
    rewrite spec_split_cut.
    destruct (cut head separator) as [[m r]|] eqn:Hcut; [|reflexivity].
    exfalso. pose proof (cut_Some _ _ _ _ Hcut) as Hhead.
    rewrite <- app_assoc in Hidx.
    rewrite indexOf_cut, (cut_app _ (tail ++ separator) _ _ _ Hcut) in Hidx.
    apply Nat2Z.inj in Hidx. rewrite Hhead, !length_app in Hidx.
    simpl in Hidx. lia.
  - destruct (pipeThrough_frames [head; tail ++ separator]) as [-> _].
    cbn [concat]. rewrite app_nil_r.
    replace (head ++ tail ++ separator)
      with ((head ++ tail) ++ separator ++ [])
      by (rewrite app_nil_r, app_assoc; reflexivity).
    rewrite (spec_frames_frame _ [] Hidx). cbn. apply app_nil_r.
Qed.

(** C3.  A frame whose payload does not parse, or parses to a value the
    schema rejects, puts nothing on the output and ends normally; no call
    of the transform throws; and in a stream where such a frame stands
    between complete frames before it and any text after it, the output is
    the translation of the valid events before it followed by that of the
    valid events after it. *)
Theorem malformed_frame_dropped (message : jsstring) :
  let payload := replace_anchored message data_prefix [] in
  JSON_parse payload = None
  \/ (exists json, JSON_parse payload = Some json
                   /\ safeParse larsBackendStreamEventSchema json = None) ->
  enqueued (trace (handle message)) = []
  /\ returns (handle message) tt
  /\ (forall buffer chunk, exists buffer', returns (transform buffer chunk) buffer')
  /\ (forall chunks before rest,
        spec_remainder before = [] ->
        indexOf (message ++ separator) separator = Z.of_nat (length message) ->
        concat chunks = before ++ message ++ separator ++ rest ->
        enqueued (trace (pipeThrough chunks))
        = flat_map parts_of (backend_events before)
          ++ flat_map parts_of (backend_events rest)
        /\ exists buffer', returns (pipeThrough chunks) buffer').
Proof.
  intros payload Hbad.
  assert (event_of message = None) as Hnone.
  { unfold event_of. destruct (skipped message); [reflexivity|].
    fold payload. destruct Hbad as [-> | (json & -> & Hjson)];
      [reflexivity | exact Hjson]. }
  split; [rewrite handle_parts, Hnone; reflexivity|].
  split; [apply handle_returns|].
  split.
  { intros buffer chunk.
    destruct (transform_returns buffer chunk) as (b' & Hb' & _). eauto. }
  intros chunks before rest Hbefore Hframe Hchunks. split.
  - rewrite pipeThrough_events, Hchunks, (backend_events_app _ _ Hbefore).
    unfold backend_events at 2. rewrite (spec_frames_frame _ _ Hframe).
    cbn [omap list_omap]. rewrite Hnone, flat_map_app. reflexivity.
  - eexists. apply pipeThrough_returns.
Qed.

(** A [type] outside the enumeration is one way to fail validation. *)
Lemma unknown_type_invalid (o : list (jsstring * json)) (type : jsstring) :
  get (lit "type") o = Some (JString type) ->
  (forall name tag, In (name, tag) Event.tags -> lit name <> type) ->
  safeParse larsBackendStreamEventSchema (JObject o) = None.
Proof.
  intros Hget Hnot. unfold safeParse, larsBackendStreamEventSchema, Zod.object.
  change (Zod.field "type" (Zod.enum Event.tags) o)
    with (Zod.enum Event.tags (get (lit "type") o)).
  rewrite Hget. unfold Zod.enum.
  cbn [Zod.string_ mbind option_bind].
  destruct (List.find _ Event.tags) as [[name tag]|] eqn:Hfind; [|reflexivity].
  apply find_some in Hfind as [Hin Heq]. cbn [fst] in Heq.
  apply bool_decide_eq_true in Heq. destruct (Hnot name tag Hin Heq).
Qed.

(** C9.  After every call of the transform the buffer holds no separator:
    the call ends normally, and [indexOf] finds no separator in the buffer
    it leaves, so the buffer holds no complete frame.  Every complete
    frame of the buffer with the chunk has been taken off and handled
    before the call returns: what the call has done is the line for the
    chunk and then the handling of each of these frames in order; the
    frames, each with its separator, and the buffer left make up the
    buffer with the chunk; and the parts put out are those of the valid
    events the frames carry. *)
Theorem buffer_holds_no_separator (buffer chunk : jsstring) :
  exists buffer',
    returns (transform buffer chunk) buffer'
    /\ indexOf buffer' separator = -1
    /\ spec_frames buffer' = []
    /\ buffer' = spec_remainder (buffer ++ chunk)
    /\ concat (framed <$> spec_frames (buffer ++ chunk)) ++ buffer'
       = buffer ++ chunk
    /\ trace (transform buffer chunk)
       = trace (log (ReceivedRawChunk chunk))
         ++ flat_map (fun frame => trace (handle frame))
              (spec_frames (buffer ++ chunk))
    /\ forall events,
         Forall2 (spec_event JSON_parse) (spec_frames (buffer ++ chunk))
           events ->
         enqueued (trace (transform buffer chunk))
         = flat_map parts_of (omap id events).
Proof.
  destruct (transform_returns buffer chunk) as (b' & Hb' & Hidx).
  exists b'. split; [exact Hb'|]. split; [exact Hidx|].
  split.
  { apply indexOf_absent in Hidx. unfold spec_frames.
    rewrite spec_split_cut, Hidx. reflexivity. }
  assert (b' = spec_remainder (buffer ++ chunk)) as Hrem.
  { unfold returns in Hb'. rewrite transform_process, process_frames in Hb'.
    cbn [outcome snd] in Hb'. congruence. }
  split; [exact Hrem|].
  split; [rewrite Hrem; apply spec_split_join|].
  split.
  { rewrite transform_process, process_frames. reflexivity. }
  intros events Hevents.
  rewrite transform_process. cbn [trace fst].
  rewrite enqueued_app, log_enqueues_nothing, process_events.
  rewrite (spec_events_backend _ _ Hevents). reflexivity.
Qed.
(** C5.  A valid [metadata] event without [data] yields no part; one with
    [data] yields exactly one [data] part that carries the event's [data]
    as it is.  The same holds of the frame that carries the event. *)
Theorem metadata_translation (event : Event.t) :
  Event.type event = Event.Metadata ->
  translate event = match Event.data event with
                    | None => ([], Normal tt)
                    | Some d => ([Enqueue (Part.Data d)], Normal tt)
                    end
  /\ forall message,
       event_of message = Some event ->
       enqueued (trace (handle message))
       = match Event.data event with
         | None => []
         | Some d => [Part.Data d]
         end.
Proof.
  intros Hty.
  assert (translate event = match Event.data event with
                            | None => ([], Normal tt)
                            | Some d => ([Enqueue (Part.Data d)], Normal tt)
                            end) as Htr.
  { unfold translate. rewrite Hty. destruct (Event.data event); reflexivity. }
  split; [exact Htr|].
  intros message Hev. rewrite handle_parts, Hev. unfold parts_of.
  rewrite Htr. destruct (Event.data event); reflexivity.
Qed.

Lemma text_of_app (parts1 parts2 : list Part.t) :
  text_of (parts1 ++ parts2) = text_of parts1 ++ text_of parts2.
Proof. unfold text_of. rewrite omap_app. apply concat_app. Qed.

Lemma text_of_parts_of (event : Event.t) :
  text_of (parts_of event)
  = match Event.type event, Event.delta event with
    | Event.TextDelta, Some (c :: delta) => c :: delta
    | _, _ => []
    end.
Proof.
  unfold parts_of, translate.
  destruct (Event.type event); try reflexivity.
  - destruct (Event.data event); reflexivity.
  - destruct (Event.delta event) as [[|c d]|]; reflexivity.
  - destruct (Event.delta event) as [[|c d]|]; try reflexivity.
    cbn. rewrite app_nil_r. reflexivity.
Qed.

(** C6.  A valid [text-delta] or [reasoning-delta] event whose [delta] is
    absent or empty yields no part; and for every stream, the [delta]s of
    the [text-delta] parts it puts out, concatenated in order, are the
    non-empty [delta]s of the valid [text-delta] events of its text,
    concatenated in arrival order: the events the code reads off the
    text, which are the events its frames carry in the words of the spec
    (every text has them). *)
Theorem delta_translation :
  (forall event,
     Event.type event = Event.TextDelta
     \/ Event.type event = Event.ReasoningDelta ->
     Event.delta event = None \/ Event.delta event = Some [] ->
     translate event = ([], Normal tt))
  /\ (forall chunks,
        text_of (enqueued (trace (pipeThrough chunks)))
        = concat (text_deltas (backend_events (concat chunks))))
  /\ (forall chunks events,
        Forall2 (spec_event JSON_parse) (spec_frames (concat chunks)) events ->
        text_of (enqueued (trace (pipeThrough chunks)))
        = concat (text_deltas (omap id events)))
  /\ (forall chunks,
        exists events,
          Forall2 (spec_event JSON_parse) (spec_frames (concat chunks))
            events).
Proof.
  assert (forall chunks,
            text_of (enqueued (trace (pipeThrough chunks)))
            = concat (text_deltas (backend_events (concat chunks)))) as Htext.
  { intros chunks. rewrite pipeThrough_events. unfold text_deltas.
    induction (backend_events (concat chunks)) as [|event events IH];
      [reflexivity|].
    cbn [flat_map omap list_omap].
    rewrite text_of_app, IH, text_of_parts_of.
    destruct (Event.type event); try reflexivity.
    destruct (Event.delta event) as [[|c d]|]; reflexivity. }
  split; [|split; [exact Htext | split]].
  - intros event Hty Hdelta. unfold translate.
    destruct Hty as [-> | ->]; destruct Hdelta as [-> | ->]; reflexivity.
  - intros chunks events Hevents.
    rewrite Htext, (spec_events_backend _ _ Hevents). reflexivity.
  - intros chunks. exists (event_of <$> spec_frames (concat chunks)).
    apply spec_events_of. reflexivity.
Qed.

(** C7.  A valid [finish] event yields exactly one [finish] part: its
    reason is the event's, or [stop] when the event has none; its input,
    output and total counts are those of the event's [usage], or [0] when
    the event has no [usage]; its reasoning count is that of the [usage],
    absent when the [usage] or the count is. *)
Theorem finish_translation (event : Event.t) :
  Event.type event = Event.Finish ->
  translate event
  = ([Enqueue
        (Part.Finish
           (match Event.finishReason event with
            | Some reason => reason
            | None => lit "stop"
            end)
           (match Event.usage event with
            | Some u =>
                {| Part.inputTokens := Event.inputTokens u;
                   Part.outputTokens := Event.outputTokens u;
                   Part.totalTokens := Event.totalTokens u;
                   Part.reasoningTokens := Event.reasoningTokens u |}
            | None =>
                {| Part.inputTokens := integer 0;
                   Part.outputTokens := integer 0;
                   Part.totalTokens := integer 0;
                   Part.reasoningTokens := None |}
            end))],
     Normal tt).
Proof.
  intros Hty. unfold translate. rewrite Hty.
  destruct (Event.finishReason event), (Event.usage event); reflexivity.
Qed.

(** C8.  The parts of the reasoning and text events carry the event's
    [id] when it has one, and otherwise [reasoning-block] or
    [text-block]; a delta event is meant with a non-empty [delta]. *)
Theorem block_identifier (event : Event.t) :
  let reasoning_id := match Event.id event with
                      | Some id => id
                      | None => lit "reasoning-block"
                      end in
  let text_id := match Event.id event with
                 | Some id => id
                 | None => lit "text-block"
                 end in
  match Event.type event with
  | Event.ReasoningStart =>
      translate event = ([Enqueue (Part.ReasoningStart reasoning_id)], Normal tt)
  | Event.ReasoningDelta =>
      forall c delta, Event.delta event = Some (c :: delta) ->
      translate event
      = ([Enqueue (Part.ReasoningDelta reasoning_id (c :: delta))], Normal tt)
  | Event.ReasoningEnd =>
      translate event = ([Enqueue (Part.ReasoningEnd reasoning_id)], Normal tt)
  | Event.TextStart =>
      translate event = ([Enqueue (Part.TextStart text_id)], Normal tt)
  | Event.TextDelta =>
      forall c delta, Event.delta event = Some (c :: delta) ->
      translate event
      = ([Enqueue (Part.TextDelta text_id (c :: delta))], Normal tt)
  | Event.TextEnd =>
      translate event = ([Enqueue (Part.TextEnd text_id)], Normal tt)
  | _ => True
  end.
Proof.
  intros reasoning_id text_id. unfold translate.
  destruct (Event.type event) eqn:Hty; try exact I; try reflexivity.
  - intros c delta ->. reflexivity.
  - intros c delta ->. reflexivity.
Qed.

(** C10.  For a frame the guard lets through, the payload handed to the
    parser is the frame without one leading [data: ] (whatever follows it,
    a second [data: ] included), and the frame itself when it does not
    begin with [data: ]; so a frame of bare JSON that validates is
    translated like any other. *)
Theorem data_prefix_stripped_once (message : jsstring) :
  skipped message = false ->
  (forall payload, message = data_prefix ++ payload ->
                   handle message = decode payload)
  /\ (startsWith message data_prefix = false ->
      handle message = decode message
      /\ forall json event,
           JSON_parse message = Some json ->
           safeParse larsBackendStreamEventSchema json = Some event ->
           enqueued (trace (handle message)) = parts_of event).
Proof.
  intros Hskip. split.
  - intros payload ->. unfold handle. rewrite Hskip.
    unfold replace_anchored. rewrite startsWith_self_app, drop_app_length.
    reflexivity.
  - intros Hprefix.
    assert (replace_anchored message data_prefix [] = message) as Hsame
      by (unfold replace_anchored; rewrite Hprefix; reflexivity).
    split.
    + unfold handle. rewrite Hskip, Hsame. reflexivity.
    + intros json event Hparse Hvalid. rewrite handle_parts.
      unfold event_of. rewrite Hskip, Hsame, Hparse. cbn [mbind option_bind]. rewrite Hvalid.
      reflexivity.
Qed.

(** ** The call's preconditions *)

Lemma find_app {A : Type} (f : A -> bool) (l1 l2 : list A) :
  List.find f (l1 ++ l2)
  = match List.find f l1 with
    | Some x => Some x
    | None => List.find f l2
    end.
Proof.
  induction l1 as [|x l1 IH]; [reflexivity|].
  simpl. destruct (f x); [reflexivity | exact IH].
Qed.

(** The inner loop: it throws at the first element that is not a text
    part, and has no effect. *)
Lemma check_parts (types : list (option jsstring)) :
  mapM check_part types
  = match List.find not_text types with
    | Some type => ([], Throw (unsupported_input type))
    | None => ([], Normal ((fun _ => tt) <$> types))
    end.
Proof.
  induction types as [|type types IH]; [reflexivity|].
  cbn [mapM List.find].
  change (check_part type)
    with (if not_text type then throw (unsupported_input type) else mret tt).
  destruct (not_text type); [reflexivity|].
  rewrite bind_ret_l, IH.
  destruct (List.find not_text types); reflexivity.
Qed.

Lemma check_prompt (messages : list Message) :
  let checks := mapM (fun message => mapM check_part (part_types message))
                  messages in
  trace checks = []
  /\ match List.find not_text (flat_map part_types messages) with
     | Some type => outcome checks = Throw (unsupported_input type)
     | None => exists units, outcome checks = Normal units
     end.
Proof.
  induction messages as [|message messages [IHtr IHout]];
    [split; [reflexivity | eexists; reflexivity]|].
  cbn [mapM flat_map]. rewrite find_app, check_parts.
  destruct (List.find not_text (part_types message)) as [type|];
    [split; reflexivity|].
  rewrite bind_Normal.
  destruct (mapM _ messages) as [tr [units|e]]; cbn in IHtr; subst tr.
  - destruct (List.find not_text (flat_map part_types messages));
      [discriminate IHout|].
    split; [reflexivity | eexists; reflexivity].
  - destruct (List.find not_text (flat_map part_types messages));
      [|destruct IHout; discriminate].
    split; [reflexivity | exact IHout].
Qed.

(** C4.  A call whose headers have no [Authorization] entry fails with
    the authentication error; a call whose prompt has a content part of a
    type other than [text] fails too, with the unsupported-functionality
    error that names the type of the first such part when the credential
    is there, and with the authentication error otherwise.  Either way
    the call has had no effect when it fails: no request has been sent
    and no part has been put out. *)
Theorem doStream_fails_fast (options : CallOptions) :
  ((forall h, headers options = Some h -> h !! lit "Authorization" = None) ->
   doStream options = ([], Throw authentication_error))
  /\ (forall message type,
        In message (prompt options) ->
        In type (part_types message) ->
        type <> Some (lit "text") ->
        exists first,
          offending options = Some first
          /\ first <> Some (lit "text")
          /\ doStream options
             = ([], Throw (if truthy (authorization options)
                           then unsupported_input first
                           else authentication_error))).
Proof.
  split.
  - intros Hlack. unfold doStream.
    assert (authorization options = None) as ->; [|reflexivity].
    unfold authorization. destruct (headers options) as [h|]; [|reflexivity].
    cbn [mbind option_bind]. rewrite (Hlack h eq_refl). reflexivity.
  - intros message type Hmsg Htype Hne.
    assert (exists first, offending options = Some first) as [first Hfirst].
    { unfold offending.
      destruct (List.find _ _) as [first|] eqn:Hfind; [eauto|].
      exfalso.
      assert (not_text type = false) as Hfalse.
      { apply (find_none _ _ Hfind type). apply in_flat_map. eauto. }
      apply negb_false_iff, bool_decide_eq_true in Hfalse. contradiction. }
    exists first. split; [exact Hfirst|]. split.
    + unfold offending in Hfirst. apply find_some in Hfirst as [_ Hfirst].
      apply negb_true_iff, bool_decide_eq_false in Hfirst. exact Hfirst.
    + unfold doStream.
      destruct (truthy (authorization options)); [|reflexivity].
      cbn [negb]. rewrite bind_ret_l.
      destruct (check_prompt (prompt options)) as [Htr Hout].
      unfold offending in Hfirst.
      rewrite Hfirst in Hout.
      destruct (mapM _ (prompt options)) as [tr c].
      cbn in Htr, Hout. subst tr c. reflexivity.
Qed.

Lemma content_texts (messages : list Message) :
  Forall (fun message => exists parts, content message = inr parts) messages ->
  exists texts,
    mapM (fun message => text ← content_text message; mret (role message, text))
      messages = ([], Normal texts).
Proof.
  induction 1 as [|message messages' [parts Hparts] _ [texts IH]];
    [eexists; reflexivity|].
  assert (exists text, content_text message = mret text) as [text Htext]
    by (unfold content_text; rewrite Hparts; eexists; reflexivity).
  cbn [mapM]. rewrite Htext, !bind_ret_l, IH. eexists. reflexivity.
Qed.

(** When both checks pass and every message has an array of parts, the
    first thing the call does is the request. *)
Lemma doStream_fetches (options : CallOptions) :
  truthy (authorization options) = true ->
  offending options = None ->
  Forall (fun message => exists parts, content message = inr parts)
    (prompt options) ->
  exists request rest, trace (doStream options) = Fetch request :: rest.
Proof.
  intros Hauth Hoff Harrays. unfold doStream. rewrite Hauth.
  cbn [negb]. rewrite bind_ret_l.
  destruct (check_prompt (prompt options)) as [Htr Hout].
  unfold offending in Hoff. rewrite Hoff in Hout.
  destruct Hout as [units Hout].
  destruct (mapM (fun message => mapM check_part (part_types message)) _)
    as [tr c].
  cbn in Htr, Hout. subst tr c. rewrite bind_Normal. cbn [app].
  destruct (content_texts _ Harrays) as [texts ->].
  rewrite bind_Normal. cbn [app trace fst].
  match goal with
  | |- context [fetch ?r] =>
      exists r; destruct (trace_bind_prefix (fetch r) receive) as [rest Hrest]
  end.
  exists rest. etransitivity; [exact Hrest|].
  unfold fetch, perform, lift. rewrite bind_Normal. reflexivity.
Qed.

End Properties.

(** ** The discard rule of the loop *)

Lemma skipped_discarded (message : jsstring) :
  discarded message <-> skipped message = true.
Proof.
  split.
  - intros Hdisc. destruct (skipped message) eqn:Hskip; [reflexivity|].
    exfalso.
    specialize (Hdisc
      (fun _ => Some (JObject [(lit "type", JString (lit "start"))]))
      {| modelId := []; baseURL := []; debug := false |}).
    unfold handle in Hdisc. rewrite Hskip in Hdisc. discriminate Hdisc.
  - intros Hskip JSON_parse self. unfold handle. rewrite Hskip. reflexivity.
Qed.

Lemma silent_iff_skipped (JSON_parse : jsstring -> option json)
  (self : LarsLanguageModel) (message : jsstring) :
  debug self = true ->
  trace (handle JSON_parse self message) = [] <-> skipped message = true.
Proof.
  intros Hdebug. unfold handle.
  destruct (skipped message); [split; reflexivity|].
  split; [|discriminate]. rewrite decode_cases. unfold log. rewrite Hdebug.
  destruct (JSON_parse _) as [json|]; [|discriminate].
  destruct (safeParse larsBackendStreamEventSchema json) as [event|];
    [|discriminate].
  unfold perform. rewrite bind_Normal. discriminate.
Qed.

(** C2, amended.  A frame is discarded if and only if it is empty after
    trimming or begins with the marker [data: [DONE]]; every other frame
    goes on to the stripping of the prefix and to the parser.  With the
    debug log on, the discarded frames are those that leave no trace at
    all, not even a line on the console. *)
Theorem frame_discarded_iff (message : jsstring) :
  (discarded message
   <-> trim message = [] \/ startsWith message done_marker = true)
  /\ (~ discarded message ->
      forall JSON_parse self,
        handle JSON_parse self message
        = decode JSON_parse self (replace_anchored message data_prefix []))
  /\ (forall JSON_parse self,
        debug self = true ->
        trace (handle JSON_parse self message) = []
        <-> trim message = [] \/ startsWith message done_marker = true).
Proof.
  assert (skipped message = true
          <-> trim message = [] \/ startsWith message done_marker = true)
    as Hguard.
  { unfold skipped. rewrite orb_true_iff, bool_decide_eq_true. reflexivity. }
  split; [rewrite skipped_discarded; exact Hguard|]. split.
  - intros Hnot JSON_parse self. unfold handle.
    destruct (skipped message) eqn:Hskip; [|reflexivity].
    destruct Hnot. apply skipped_discarded, Hskip.
  - intros JSON_parse self Hdebug.
    rewrite (silent_iff_skipped JSON_parse self message Hdebug).
    exact Hguard.
Qed.

(** ** Examples *)

Example scenario_parts :
  enqueued (trace (pipeThrough parse caselaw [scenario]))
  = [ Part.StreamStart [];
      Part.TextStart (lit "t1");
      Part.TextDelta (lit "t1") (lit "Hi");
      Part.TextDelta (lit "t1") (lit " there");
      Part.TextEnd (lit "t1");
      Part.Finish (lit "stop")
        {| Part.inputTokens := integer 0; Part.outputTokens := integer 0;
           Part.totalTokens := integer 0; Part.reasoningTokens := None |} ].
Proof. vm_compute. reflexivity. Qed.

Example scenario_text :
  text_of (enqueued (trace (pipeThrough parse caselaw [scenario])))
  = lit "Hi there".
Proof. vm_compute. reflexivity. Qed.

Example split_frame_parts :
  enqueued (trace (pipeThrough parse caselaw [split_head])) = []
  /\ enqueued (trace (pipeThrough parse caselaw
                        [split_head; split_tail ++ separator]))
     = [Part.TextDelta (lit "text-block") (lit "X")].
Proof. split; vm_compute; reflexivity. Qed.

(** With the debug log on, a malformed frame and a frame of an unknown
    type leave a line on the console and nothing on the stream; the frame
    after them is translated. *)
Example malformed_then_valid :
  trace (pipeThrough parse caselaw_debug
           [wire "data: {'type':" ++ wire "data: {'type':'bogus'}"
            ++ wire "data: {'type':'text-end'}"])
  = [ Log (ReceivedRawChunk
             (wire "data: {'type':" ++ wire "data: {'type':'bogus'}"
              ++ wire "data: {'type':'text-end'}"));
      Log (FailedToParseSseMessageJson (jlit "{'type':") SyntaxError);
      Log SkippingInvalidBackendEvent;
      Log (ParsedAndValidatedEvent
             (Event.Make Event.TextEnd None None None None None None None None));
      Enqueue (Part.TextEnd (lit "text-block")) ].
Proof. vm_compute. reflexivity. Qed.

(** A [usage] that lacks one of the three counts does not validate. *)
Example usage_needs_counts :
  (json ← parse (jlit "{'type':'finish','usage':{'inputTokens':1,'outputTokens':2}}");
   safeParse larsBackendStreamEventSchema json) = None.
Proof. vm_compute. reflexivity. Qed.

(** ** The reference parser and the guard

    A frame the guard skips is never one the reference parser would have
    accepted: the text after the marker's prefix begins with [[D], and a
    text of white space only holds no value.  With this parser the events
    of a text are therefore the frames that parse and validate. *)

Lemma trimStart_snoc (s : jsstring) (c : N) :
  isWhiteSpace c = false -> trimStart (s ++ [c]) <> [].
Proof.
  intros Hc. induction s as [|d s IH]; simpl.
  - rewrite Hc. discriminate.
  - destruct (isWhiteSpace d); [exact IH | discriminate].
Qed.

Lemma trimStart_nil (s : jsstring) :
  trimStart s = [] -> forallb isWhiteSpace s = true.
Proof.
  induction s as [|c s IH]; [reflexivity|]. simpl.
  destruct (isWhiteSpace c); [exact IH | discriminate].
Qed.

Lemma trim_nil (s : jsstring) : trim s = [] -> forallb isWhiteSpace s = true.
Proof.
  unfold trim, trimEnd. intros H. apply trimStart_nil.
  destruct (trimStart s) as [|c s'] eqn:Hs; [reflexivity|].
  exfalso.
  assert (isWhiteSpace c = false) as Hc.
  { destruct s as [|d s]; [discriminate Hs|]. simpl in Hs.
    destruct (isWhiteSpace d) eqn:Hd.
    - clear H. revert c s' Hs. induction s as [|e s IH]; intros c s' Hs;
        [discriminate Hs|].
      simpl in Hs. destruct (isWhiteSpace e) eqn:He; [eauto|].
      injection Hs as <- _. exact He.
    - injection Hs as <- _. exact Hd. }
  apply (f_equal (@rev N)) in H. rewrite rev_involutive in H. simpl in H.
  apply (trimStart_snoc (rev s') c Hc). exact H.
Qed.

Lemma skip_ws_white (s : jsstring) :
  forallb isWhiteSpace s = true -> forallb isWhiteSpace (skip_ws s) = true.
Proof.
  induction s as [|c s IH]; [reflexivity|]. simpl. intros H.
  destruct (isJsonSpace c).
  - apply andb_true_iff in H as [_ H]. exact (IH H).
  - exact H.
Qed.

Lemma skip_ws_head (s : jsstring) (c : N) (r : jsstring) :
  skip_ws s = c :: r -> isJsonSpace c = false.
Proof.
  induction s as [|d s IH]; [discriminate|]. simpl.
  destruct (isJsonSpace d) eqn:Hd; [exact IH|].
  intros [= <- _]. exact Hd.
Qed.

(** White space that is not JSON white space begins no value. *)
Lemma white_begins_no_value (c : N) (r : jsstring) (fuel : nat) :
  isWhiteSpace c = true -> isJsonSpace c = false ->
  value (S fuel) (c :: r) = None.
Proof.
  intros Hw Hj.
  assert (In c [9; 10; 11; 12; 13; 32; 160; 5760; 8192; 8193; 8194; 8195;
                8196; 8197; 8198; 8199; 8200; 8201; 8202; 8232; 8233; 8239;
                8287; 12288; 65279]%N) as Hc.
  { unfold isWhiteSpace in Hw.
    repeat rewrite orb_true_iff in Hw. rewrite andb_true_iff in Hw.
    repeat rewrite N.eqb_eq in Hw. rewrite !N.leb_le in Hw.
    assert (8192 <= c <= 8202 ->
            c = 8192 \/ c = 8193 \/ c = 8194 \/ c = 8195 \/ c = 8196
            \/ c = 8197 \/ c = 8198 \/ c = 8199 \/ c = 8200 \/ c = 8201
            \/ c = 8202)%N as Hrange by lia.
    simpl. intuition (subst; auto 30). }
  simpl in Hc.
  repeat (destruct Hc as [<- | Hc];
          [first [discriminate Hj | reflexivity]|]).
  destruct Hc.
Qed.

Lemma white_unparsable (s : jsstring) :
  forallb isWhiteSpace s = true -> parse s = None.
Proof.
  intros Hs. unfold parse.
  assert (exists fuel, (2 * length s + 2 = S fuel)%nat) as [fuel ->]
    by (exists (2 * length s + 1)%nat; lia).
  assert (value (S fuel) s = None) as ->; [|reflexivity].
  pose proof (skip_ws_white s Hs) as Hw.
  destruct (skip_ws s) as [|c r] eqn:Hskip.
  - cbn [value]. rewrite Hskip. reflexivity.
  - pose proof (skip_ws_head _ _ _ Hskip) as Hj.
    simpl in Hw. apply andb_true_iff in Hw as [Hc _].
    pose proof (white_begins_no_value c r fuel Hc Hj) as Hnone.
    cbn [value] in Hnone |- *. rewrite Hskip.
    simpl skip_ws in Hnone. rewrite Hj in Hnone. exact Hnone.
Qed.

Lemma done_unparsable (rest : jsstring) : parse (lit "[DONE]" ++ rest) = None.
Proof.
  unfold parse.
  assert (exists fuel, (2 * length (lit "[DONE]" ++ rest) + 2
                        = S (S (S fuel)))%nat) as [fuel ->].
  { exists (2 * length rest + 11)%nat. rewrite length_app.
    change (length (lit "[DONE]")) with 6%nat. lia. }
  reflexivity.
Qed.

Lemma skipped_unparsable (message : jsstring) :
  skipped message = true ->
  parse (replace_anchored message data_prefix []) = None.
Proof.
  unfold skipped. rewrite orb_true_iff, bool_decide_eq_true.
  intros [Htrim | Hdone].
  - apply trim_nil in Htrim. unfold replace_anchored.
    destruct (startsWith message data_prefix) eqn:Hp.
    + apply startsWith_app in Hp as [r ->]. discriminate Htrim.
    + apply white_unparsable, Htrim.
  - apply startsWith_app in Hdone as [rest ->].
    change (done_marker ++ rest) with (data_prefix ++ lit "[DONE]" ++ rest).
    unfold replace_anchored.
    rewrite startsWith_self_app, drop_app_length. apply done_unparsable.
Qed.

Lemma event_of_reference (message : jsstring) :
  event_of parse message
  = (json ← parse (replace_anchored message data_prefix []);
     safeParse larsBackendStreamEventSchema json).
Proof.
  unfold event_of. destruct (skipped message) eqn:Hskip; [|reflexivity].
  rewrite (skipped_unparsable _ Hskip). reflexivity.
Qed.

(** * The properties at concrete inputs *)

(** A frame that is written out carries an event that is written out:
    the frame is not a discarded one, its payload parses to an object, and
    the object has the content of the event, property by property. *)
Ltac carries :=
  split; [vm_compute; discriminate|];
  split; [intros rest Hrest; vm_compute in Hrest; discriminate Hrest|];
  eexists; split; [vm_compute; reflexivity|];
  repeat split;
  try (eexists; split; [cbn; eauto 15 | vm_compute; reflexivity]).

Lemma chunk_boundary_independence_witness :
  enqueued (trace (pipeThrough parse caselaw
                     [split_head; split_tail ++ separator]))
  = enqueued (trace (pipeThrough parse caselaw
                       [split_head ++ split_tail ++ separator]))
  /\ enqueued (trace (pipeThrough parse caselaw [split_head])) = []
  /\ returns (pipeThrough parse caselaw [split_head]) split_head
  /\ enqueued (trace (pipeThrough parse caselaw
                        [split_head; split_tail ++ separator]))
     = [Part.TextDelta (lit "text-block") (lit "X")].
Proof.
  assert (spec_event parse (split_head ++ split_tail) (Some delta_event))
    as Hevent by carries.
  assert (indexOf ((split_head ++ split_tail) ++ separator) separator
          = Z.of_nat (length (split_head ++ split_tail))) as Hidx
    by (vm_compute; reflexivity).
  assert (enqueued (trace (pipeThrough parse caselaw [[]])) = []) as Hnil
    by (rewrite pipeThrough_events; reflexivity).
  destruct (chunk_boundary_independence parse caselaw
              [split_head ++ split_tail ++ separator]
              [split_head; split_tail ++ separator])
    as (Hsame & _ & Hframe); [vm_compute; reflexivity|].
  destruct (chunk_boundary_independence parse caselaw
              [split_head] [split_head] eq_refl) as (_ & _ & Hhead).
  split; [symmetry; exact Hsame|].
  destruct (proj1 (Hhead [] split_head split_tail [] delta_event eq_refl
                     Hevent Hidx)) as [Hnone Hbuffer];
    [vm_compute; reflexivity|].
  split; [rewrite Hnone; exact Hnil|]. split; [exact Hbuffer|].
  rewrite (proj2 (Hframe [] split_head split_tail [] delta_event eq_refl
                    Hevent Hidx));
    [|vm_compute; reflexivity].
  rewrite Hnil. reflexivity.
Defined.

Lemma buffer_holds_no_separator_witness :
  returns (transform parse caselaw split_head
             (split_tail ++ separator ++ next_head)) next_head
  /\ enqueued (trace (transform parse caselaw split_head
                        (split_tail ++ separator ++ next_head)))
     = [Part.TextDelta (lit "text-block") (lit "X")].
Proof.
  destruct (buffer_holds_no_separator parse caselaw split_head
              (split_tail ++ separator ++ next_head))
    as (buffer' & Hret & _ & _ & Hrem & _ & _ & Hparts).
  vm_compute in Hrem. subst buffer'. split; [exact Hret|].
  rewrite (Hparts [Some delta_event]); [reflexivity|].
  remember (spec_frames (split_head ++ split_tail ++ separator ++ next_head))
    as frames eqn:Hframes.
  vm_compute in Hframes. subst frames.
  constructor; [carries | constructor].
Defined.

Lemma frame_discarded_iff_witness :
  discarded done_and_more
  /\ handle parse caselaw bare_start = decode parse caselaw bare_start
  /\ trace (handle parse caselaw_debug done_and_more) = [].
Proof.
  split; [|split].
  - apply (proj1 (frame_discarded_iff done_and_more)).
    right. vm_compute. reflexivity.
  - apply (proj1 (proj2 (frame_discarded_iff bare_start))).
    intros Hdisc.
    apply (proj1 (frame_discarded_iff bare_start)) in Hdisc.
    destruct Hdisc as [H | H]; vm_compute in H; discriminate H.
  - apply (proj2 (proj2 (frame_discarded_iff done_and_more))
             parse caselaw_debug eq_refl).
    right. vm_compute. reflexivity.
Defined.

(** C2 as the spec words it fails: the frame [data: [DONE] and more] is
    discarded, and it is neither empty after trimming nor equal to the
    marker. *)
Lemma spec_discard_rule_counterexample : ~ spec_discard_rule done_and_more.
Proof.
  intros [Hrule _].
  destruct Hrule as [H | H].
  - apply skipped_discarded. vm_compute. reflexivity.
  - vm_compute in H. discriminate H.
  - vm_compute in H. discriminate H.
Qed.

Lemma malformed_frame_dropped_witness :
  enqueued (trace (handle parse caselaw bogus)) = []
  /\ returns (handle parse caselaw bogus) tt
  /\ enqueued (trace (pipeThrough parse caselaw
                        [wire "data: {'type':'start'}"; bogus ++ separator;
                         wire "data: {'type':'text-end'}"]))
     = [Part.StreamStart []; Part.TextEnd (lit "text-block")].
Proof.
  assert (let payload := replace_anchored bogus data_prefix [] in
          parse payload = None
          \/ (exists json, parse payload = Some json
                /\ safeParse larsBackendStreamEventSchema json = None)) as Hbad.
  { right. exists (JObject [(lit "type", JString (lit "bogus"))]).
    split; vm_compute; reflexivity. }
  destruct (malformed_frame_dropped parse caselaw bogus Hbad)
    as (Hnone & Hret & _ & Hstream).
  split; [exact Hnone|]. split; [exact Hret|].
  destruct (Hstream
              [wire "data: {'type':'start'}"; bogus ++ separator;
               wire "data: {'type':'text-end'}"]
              (wire "data: {'type':'start'}")
              (wire "data: {'type':'text-end'}")) as [Hparts _].
  - vm_compute. reflexivity.
  - vm_compute. reflexivity.
  - vm_compute. reflexivity.
  - rewrite Hparts. vm_compute. reflexivity.
Defined.

Lemma doStream_fails_fast_witness :
  doStream parse caselaw offline plain_detail call_without_headers
  = ([], Throw authentication_error)
  /\ doStream parse caselaw offline plain_detail call_with_token
     = ([], Throw (unsupported_input (Some (lit "file")))).
Proof.
  split.
  - apply (proj1 (doStream_fails_fast parse caselaw offline plain_detail
                    call_without_headers)).
    intros h Hh. discriminate Hh.
  - destruct (proj2 (doStream_fails_fast parse caselaw offline plain_detail
                       call_with_token)
                {| role := user;
                   content := inr [TextPart (lit "Summarise"); FilePart] |}
                (Some (lit "file")))
      as (first & Hfirst & _ & Hcall).
    + left. reflexivity.
    + right. left. reflexivity.
    + vm_compute. discriminate.
    + vm_compute in Hfirst. injection Hfirst as <-.
      rewrite Hcall. vm_compute. reflexivity.
Defined.

Lemma metadata_translation_witness :
  translate metadata_event
  = ([Enqueue (Part.Data [(lit "k", JNumber (integer 1))])], Normal tt)
  /\ enqueued (trace (handle parse caselaw metadata_frame))
     = [Part.Data [(lit "k", JNumber (integer 1))]].
Proof.
  destruct (metadata_translation parse caselaw metadata_event eq_refl)
    as [Htr Hframe].
  split; [exact Htr|].
  apply (Hframe metadata_frame). vm_compute. reflexivity.
Defined.

Lemma delta_translation_witness :
  translate (Event.Make Event.TextDelta None (Some (lit "t1")) (Some [])
               None None None None None)
  = ([], Normal tt)
  /\ text_of (enqueued (trace (pipeThrough parse caselaw [scenario])))
     = lit "Hi there".
Proof.
  destruct (delta_translation parse caselaw) as (Hempty & _ & Htext & _).
  split.
  - apply Hempty; [left | right]; reflexivity.
  - rewrite (Htext [scenario] scenario_events); [reflexivity|].
    remember (spec_frames (concat [scenario])) as frames eqn:Hframes.
    vm_compute in Hframes. subst frames. unfold scenario_events.
    repeat (constructor; [try carries|]);
      [right; left; exists []; reflexivity | constructor].
Defined.

Lemma finish_translation_witness :
  enqueued (trace (handle parse caselaw finish_frame))
  = [Part.Finish (lit "stop")
       {| Part.inputTokens := integer 0; Part.outputTokens := integer 0;
          Part.totalTokens := integer 0; Part.reasoningTokens := None |}]
  /\ enqueued (trace (handle parse caselaw finish_usage_frame))
     = [Part.Finish (lit "length")
          {| Part.inputTokens := integer 12; Part.outputTokens := integer 30;
             Part.totalTokens := integer 42; Part.reasoningTokens := None |}].
Proof.
  split.
  - transitivity (parts_of finish_event);
      [rewrite handle_parts; vm_compute; reflexivity|].
    unfold parts_of. rewrite (finish_translation finish_event eq_refl).
    reflexivity.
  - transitivity (parts_of finish_usage_event);
      [rewrite handle_parts; vm_compute; reflexivity|].
    unfold parts_of. rewrite (finish_translation finish_usage_event eq_refl).
    reflexivity.
Defined.

Lemma block_identifier_witness :
  enqueued (trace (handle parse caselaw
                     (jlit "data: {'type':'text-delta','delta':'X'}")))
  = [Part.TextDelta (lit "text-block") (lit "X")]
  /\ enqueued (trace (handle parse caselaw
                        (jlit "data: {'type':'reasoning-start','id':'r7'}")))
     = [Part.ReasoningStart (lit "r7")].
Proof.
  split.
  - transitivity (parts_of delta_event);
      [rewrite handle_parts; vm_compute; reflexivity|].
    unfold parts_of.
    rewrite (block_identifier delta_event 88%N [] eq_refl). reflexivity.
  - transitivity (parts_of reasoning_event);
      [rewrite handle_parts; vm_compute; reflexivity|].
    unfold parts_of. rewrite (block_identifier reasoning_event). reflexivity.
Defined.

Lemma data_prefix_stripped_once_witness :
  handle parse caselaw (data_prefix ++ data_prefix ++ bare_start)
  = decode parse caselaw (data_prefix ++ bare_start)
  /\ handle parse caselaw bare_start = decode parse caselaw bare_start
  /\ enqueued (trace (handle parse caselaw bare_start)) = [Part.StreamStart []].
Proof.
  split.
  - apply (proj1 (data_prefix_stripped_once parse caselaw
                    (data_prefix ++ data_prefix ++ bare_start) eq_refl)).
    reflexivity.
  - destruct (proj2 (data_prefix_stripped_once parse caselaw bare_start
                       eq_refl) eq_refl) as [Hsame Hparts].
    split; [exact Hsame|].
    apply (Hparts (JObject [(lit "type", JString (lit "start"))])
             (Event.Make Event.Start None None None None None None None None));
      vm_compute; reflexivity.
Defined.

(** * Further properties of the code *)

Lemma logged_app (tr1 tr2 : list effect) :
  logged (tr1 ++ tr2) = logged tr1 ++ logged tr2.
Proof. apply omap_app. Qed.

Lemma fetched_app (tr1 tr2 : list effect) :
  fetched (tr1 ++ tr2) = fetched tr1 ++ fetched tr2.
Proof. apply omap_app. Qed.

Lemma bind_ext {A B : Type} (m : M A) (f g : A -> M B) :
  (forall a, f a = g a) -> m ≫= f = m ≫= g.
Proof.
  intros Hfg. destruct m as [tr [a|e]]; [|reflexivity].
  rewrite !bind_Normal, Hfg. reflexivity.
Qed.

Section Streaming.

Variable JSON_parse : jsstring -> option json.
Variable self : LarsLanguageModel.

Local Abbreviation log := (log self).
Local Abbreviation decode := (decode JSON_parse self).
Local Abbreviation handle := (handle JSON_parse self).
Local Abbreviation process := (process JSON_parse self).
Local Abbreviation transform := (transform JSON_parse self).
Local Abbreviation pipe := (pipe JSON_parse self).
Local Abbreviation pipeThrough := (pipeThrough JSON_parse self).
Local Abbreviation event_of := (event_of JSON_parse).
Local Abbreviation backend_events := (backend_events JSON_parse).

Lemma pipe_returns (chunks : list jsstring) (buffer : jsstring) :
  exists buffer', returns (pipe buffer chunks) buffer'.
Proof.
  revert buffer; induction chunks as [|chunk chunks IH]; intros buffer.
  - exists buffer. reflexivity.
  - destruct (transform_returns JSON_parse self buffer chunk) as (b1 & Hb1 & _).
    destruct (IH b1) as [b2 Hb2]. exists b2.
    cbn [pipe]. eapply returns_bind; [exact Hb1 | exact Hb2].
Qed.

Lemma pipe_app (chunks1 chunks2 : list jsstring) (buffer : jsstring) :
  pipe buffer (chunks1 ++ chunks2)
  = (buffer' ← pipe buffer chunks1; pipe buffer' chunks2).
Proof.
  revert buffer; induction chunks1 as [|chunk chunks1 IH]; intros buffer.
  - cbn [pipe app]. rewrite bind_ret_l. reflexivity.
  - cbn [pipe app]. rewrite bind_assoc. apply bind_ext. intros b. apply IH.
Qed.

(** X1.  The stream is incremental: what the chunks received so far have
    produced (parts and console lines alike) is a prefix of what the whole
    sequence produces; the rest is the work of the later chunks on the
    buffer the earlier ones left. *)
Theorem stream_is_incremental (chunks1 chunks2 : list jsstring) :
  exists buffer,
    returns (pipeThrough chunks1) buffer
    /\ trace (pipeThrough (chunks1 ++ chunks2))
       = trace (pipeThrough chunks1) ++ trace (pipe buffer chunks2)
    /\ enqueued (trace (pipeThrough (chunks1 ++ chunks2)))
       = enqueued (trace (pipeThrough chunks1))
         ++ enqueued (trace (pipe buffer chunks2)).
Proof.
  destruct (pipe_returns chunks1 []) as [buffer Hbuffer].
  exists buffer. split; [exact Hbuffer|].
  assert (trace (pipeThrough (chunks1 ++ chunks2))
          = trace (pipeThrough chunks1) ++ trace (pipe buffer chunks2)) as Htr.
  { unfold pipeThrough. rewrite pipe_app. exact (trace_bind _ (fun b => pipe b chunks2) _ Hbuffer). }
  split; [exact Htr|]. rewrite Htr. apply enqueued_app.
Qed.

Lemma empty_buffer_remainder (before : jsstring) :
  returns (pipeThrough [before]) [] -> spec_remainder before = [].
Proof.
  intros Hret. pose proof (pipeThrough_returns JSON_parse self [before]) as H.
  cbn [concat] in H. rewrite app_nil_r in H.
  unfold returns in Hret, H. congruence.
Qed.

(** X2.  Text after the last separator is never translated, whatever it
    holds: it stays in the buffer, and the transform has no [flush] that
    would hand it on when the stream ends. *)
Theorem unterminated_frame_kept (before tail : jsstring)
  (chunks : list jsstring) :
  returns (pipeThrough [before]) [] ->
  indexOf tail separator = -1 ->
  concat chunks = before ++ tail ->
  enqueued (trace (pipeThrough chunks))
  = enqueued (trace (pipeThrough [before]))
  /\ returns (pipeThrough chunks) tail.
Proof.
  intros Hbefore Htail Hchunks.
  apply empty_buffer_remainder in Hbefore.
  apply indexOf_absent in Htail.
  assert (spec_split (before ++ tail) = (spec_frames before, tail)) as Hsplit.
  { rewrite spec_split_app, Hbefore. cbn [app].
    unfold spec_frames at 2, spec_remainder at 1.
    rewrite (spec_split_cut tail), Htail. cbn [fst snd].
    rewrite app_nil_r. reflexivity. }
  destruct (pipeThrough_frames JSON_parse self chunks) as [Htr Hout].
  destruct (pipeThrough_frames JSON_parse self [before]) as [Htr' _].
  cbn [concat] in Htr'. rewrite app_nil_r in Htr'.
  unfold spec_frames at 1 in Htr. unfold spec_remainder in Hout.
  rewrite Hchunks, Hsplit in Htr, Hout. cbn [fst snd] in Htr, Hout.
  split; [rewrite Htr, Htr'; reflexivity | exact Hout].
Qed.

(** X3.  Nothing of the text is lost or read twice: the frames the loop
    has handled, each followed by the separator, and then the buffer, are
    the text received; no frame and no buffer holds a separator. *)
Theorem frames_reassemble (chunks : list jsstring) :
  exists frames buffer,
    returns (pipeThrough chunks) buffer
    /\ enqueued (trace (pipeThrough chunks))
       = flat_map (fun frame => enqueued (trace (handle frame))) frames
    /\ concat (framed <$> frames) ++ buffer = concat chunks
    /\ Forall (fun frame => indexOf frame separator = -1) frames
    /\ indexOf buffer separator = -1.
Proof.
  exists (spec_frames (concat chunks)), (spec_remainder (concat chunks)).
  destruct (pipeThrough_frames JSON_parse self chunks) as [Htr Hout].
  split; [exact Hout|].
  split; [exact Htr|].
  split; [apply spec_split_join|].
  split; [apply spec_frames_no_separator|].
  destruct (process_returns JSON_parse self (concat chunks)) as (b & Hb & Hidx).
  rewrite process_frames in Hb. unfold returns in Hb. cbn in Hb.
  injection Hb as <-. exact Hidx.
Qed.

(** X4.  A valid event yields one part or none; none exactly for [done],
    for [metadata] without [data], and for a text or reasoning delta whose
    [delta] is absent or empty.  So a frame never puts more than one part
    on the stream. *)
Theorem event_yields_at_most_one_part (event : Event.t) :
  (parts_of event = []
   <-> Event.type event = Event.Done
       \/ (Event.type event = Event.Metadata /\ Event.data event = None)
       \/ ((Event.type event = Event.TextDelta
            \/ Event.type event = Event.ReasoningDelta)
           /\ (Event.delta event = None \/ Event.delta event = Some [])))
  /\ (parts_of event = [] \/ exists part, parts_of event = [part])
  /\ (forall message, (length (enqueued (trace (handle message))) <= 1)%nat).
Proof.
  assert (parts_of event = [] \/ exists part, parts_of event = [part]) as Hone.
  { unfold parts_of, translate.
    destruct (Event.type event); cbn; eauto.
    - destruct (Event.data event); cbn; eauto.
    - destruct (Event.delta event) as [[|c d]|]; cbn; eauto.
    - destruct (Event.delta event) as [[|c d]|]; cbn; eauto. }
  split; [|split; [exact Hone|]].
  - unfold parts_of, translate.
    destruct (Event.type event) eqn:Hty; cbn;
      try (split; [discriminate | intros [H | [[H _] | [[H | H] _]]];
                                  discriminate H]).
    + destruct (Event.data event); cbn.
      * split; [discriminate|].
        intros [H | [[_ H] | [[H | H] _]]]; discriminate H.
      * split; [intros _; right; left; split; reflexivity | reflexivity].
    + destruct (Event.delta event) as [[|c d]|]; cbn.
      * split; [intros _; right; right; split; [right|right]; reflexivity
               | reflexivity].
      * split; [discriminate|].
        intros [H | [[H _] | [_ [H | H]]]]; discriminate H.
      * split; [intros _; right; right; split; [right|left]; reflexivity
               | reflexivity].
    + destruct (Event.delta event) as [[|c d]|]; cbn.
      * split; [intros _; right; right; split; [left|right]; reflexivity
               | reflexivity].
      * split; [discriminate|].
        intros [H | [[H _] | [_ [H | H]]]]; discriminate H.
      * split; [intros _; right; right; split; [left|left]; reflexivity
               | reflexivity].
    + split; [intros _; left; reflexivity | reflexivity].
  - intros message. rewrite handle_parts.
    destruct (event_of message) as [event'|]; [|cbn; lia].
    unfold parts_of, translate.
    destruct (Event.type event'); cbn; try lia.
    + destruct (Event.data event'); cbn; lia.
    + destruct (Event.delta event') as [[|c d]|]; cbn; lia.
    + destruct (Event.delta event') as [[|c d]|]; cbn; lia.
Qed.

(** *** What the transform writes to the console *)

Lemma translate_logs_nothing (event : Event.t) :
  logged (trace (translate event)) = [] /\ fetched (trace (translate event)) = [].
Proof.
  unfold translate. destruct (Event.type event); cbn; try (split; reflexivity).
  - destruct (Event.data event); split; reflexivity.
  - destruct (Event.delta event) as [[|c d]|]; split; reflexivity.
  - destruct (Event.delta event) as [[|c d]|]; split; reflexivity.
Qed.

Lemma log_logged (entry : LogEntry) :
  logged (trace (log entry)) = (if debug self then [entry] else [])
  /\ fetched (trace (log entry)) = [].
Proof. unfold log. destruct (debug self); split; reflexivity. Qed.

(** A frame leaves no line when the guard skips it, and otherwise one line
    when the debug log is on; it sends no request. *)
Lemma handle_logged (message : jsstring) :
  length (logged (trace (handle message)))
  = (if debug self && negb (skipped message) then 1 else 0)%nat
  /\ fetched (trace (handle message)) = [].
Proof.
  unfold handle. destruct (skipped message);
    [rewrite andb_false_r; split; reflexivity|].
  rewrite andb_true_r, decode_cases.
  destruct (JSON_parse _) as [json|].
  - destruct (safeParse larsBackendStreamEventSchema json) as [event|].
    + rewrite (trace_bind _ _ _ (log_returns _ _)), logged_app, fetched_app.
      destruct (translate_logs_nothing event) as [-> ->].
      destruct (log_logged (ParsedAndValidatedEvent event)) as [-> ->].
      rewrite app_nil_r. destruct (debug self); split; reflexivity.
    + destruct (log_logged SkippingInvalidBackendEvent) as [-> ->].
      destruct (debug self); split; reflexivity.
  - destruct (log_logged (FailedToParseSseMessageJson
                            (replace_anchored message data_prefix [])
                            SyntaxError)) as [-> ->].
    destruct (debug self); split; reflexivity.
Qed.

Lemma process_logged (buffer : jsstring) :
  length (logged (trace (process buffer)))
  = (if debug self
     then length (filter (fun frame => skipped frame = false)
                    (spec_frames buffer))
     else 0)%nat
  /\ fetched (trace (process buffer)) = [].
Proof.
  rewrite process_frames. cbn [trace fst].
  induction (spec_frames buffer) as [|f fs [IHlog IHfetch]];
    [destruct (debug self); split; reflexivity|].
  cbn [flat_map]. rewrite logged_app, fetched_app, length_app, IHlog, IHfetch.
  destruct (handle_logged f) as [-> ->]. split; [|reflexivity].
  rewrite filter_cons.
  destruct (debug self); [|reflexivity]. cbn [andb].
  destruct (skipped f); reflexivity.
Qed.

Lemma pipe_logged (chunks : list jsstring) (buffer : jsstring) :
  indexOf buffer separator = -1 ->
  length (logged (trace (pipe buffer chunks)))
  = (if debug self
     then length chunks
          + length (filter (fun frame => skipped frame = false)
                      (spec_frames (buffer ++ concat chunks)))
     else 0)%nat
  /\ fetched (trace (pipe buffer chunks)) = [].
Proof.
  revert buffer; induction chunks as [|chunk chunks IH]; intros buffer Hbuf.
  - cbn [pipe concat]. rewrite app_nil_r.
    apply indexOf_absent in Hbuf. unfold spec_frames.
    rewrite spec_split_cut, Hbuf. destruct (debug self); split; reflexivity.
  - cbn [pipe concat].
    destruct (process_returns JSON_parse self (buffer ++ chunk))
      as (b1 & Hb1 & Hidx).
    destruct (IH b1 Hidx) as [IHlog IHfetch].
    assert (returns (transform buffer chunk) b1) as Ht
      by (rewrite transform_process; exact Hb1).
    rewrite (trace_bind _ _ _ Ht), logged_app, fetched_app, length_app.
    rewrite IHlog, IHfetch, transform_process. cbn [trace fst].
    rewrite logged_app, fetched_app, length_app.
    destruct (log_logged (ReceivedRawChunk chunk)) as [-> ->].
    destruct (process_logged (buffer ++ chunk)) as [-> ->].
    split; [|reflexivity].
    destruct (debug self); [|reflexivity].
    assert (b1 = spec_remainder (buffer ++ chunk)) as ->.
    { rewrite process_frames in Hb1. unfold returns in Hb1. cbn in Hb1.
      congruence. }
    rewrite (app_assoc buffer chunk).
    unfold spec_frames at 3. rewrite spec_split_app. cbn [fst].
    rewrite filter_app, length_app. cbn [length]. lia.
Qed.

Lemma pipeThrough_fetched (chunks : list jsstring) :
  fetched (trace (pipeThrough chunks)) = [].
Proof. exact (proj2 (pipe_logged chunks [] eq_refl)). Qed.

(** X5.  The transform sends no request, and with the debug flag off it
    writes nothing to the console: its whole effect is the parts it puts
    on the stream. *)
Theorem transform_is_silent (chunks : list jsstring) :
  fetched (trace (pipeThrough chunks)) = []
  /\ (debug self = false ->
      logged (trace (pipeThrough chunks)) = []
      /\ trace (pipeThrough chunks)
         = Enqueue <$> enqueued (trace (pipeThrough chunks))).
Proof.
  destruct (pipe_logged chunks [] eq_refl) as [Hlog Hfetch].
  fold (pipeThrough chunks) in Hlog, Hfetch.
  split; [exact Hfetch|]. intros Hdebug. rewrite Hdebug in Hlog.
  apply nil_length_inv in Hlog. split; [exact Hlog|].
  revert Hlog Hfetch. generalize (trace (pipeThrough chunks)).
  intros tr. induction tr as [|e tr IH]; [reflexivity|].
  destruct e; cbn; intros Hlog Hfetch; try discriminate.
  f_equal. apply IH; assumption.
Qed.

(** X6.  With the debug flag on, the console gets one line for every
    chunk and one line for every frame the guard lets through (parsed,
    invalid or unparsable alike), and none for a frame it skips. *)
Theorem debug_log_accounts_for_frames (chunks : list jsstring) :
  debug self = true ->
  length (logged (trace (pipeThrough chunks)))
  = (length chunks
     + length (filter (fun frame => skipped frame = false)
                 (spec_frames (concat chunks))))%nat.
Proof.
  intros Hdebug. destruct (pipe_logged chunks [] eq_refl) as [Hlog _].
  rewrite Hdebug in Hlog. exact Hlog.
Qed.

(** *** An event in the middle of a stream *)

Lemma frame_in_stream (message before rest : jsstring)
  (chunks : list jsstring) :
  returns (pipeThrough [before]) [] ->
  indexOf (message ++ separator) separator = Z.of_nat (length message) ->
  concat chunks = before ++ message ++ separator ++ rest ->
  enqueued (trace (pipeThrough chunks))
  = enqueued (trace (pipeThrough [before]))
    ++ enqueued (trace (handle message))
    ++ enqueued (trace (pipeThrough [rest])).
Proof.
  intros Hbefore Hframe Hchunks.
  apply empty_buffer_remainder in Hbefore.
  destruct (pipeThrough_frames JSON_parse self chunks) as [-> _].
  destruct (pipeThrough_frames JSON_parse self [before]) as [-> _].
  destruct (pipeThrough_frames JSON_parse self [rest]) as [-> _].
  cbn [concat]. rewrite !app_nil_r, Hchunks.
  rewrite (spec_frames_app _ _ Hbefore), (spec_frames_frame _ _ Hframe).
  rewrite flat_map_app. reflexivity.
Qed.

(** X7.  An [error] event of the backend becomes one [error] part that
    carries the event's [errorText], or the stock message when the event
    has none, and it does not end the stream: the parts of the frames
    before it come first and those of the text after it follow. *)
Theorem error_event_is_forwarded (message before rest : jsstring)
  (event : Event.t) (chunks : list jsstring) :
  event_of message = Some event ->
  Event.type event = Event.Error ->
  returns (pipeThrough [before]) [] ->
  indexOf (message ++ separator) separator = Z.of_nat (length message) ->
  concat chunks = before ++ message ++ separator ++ rest ->
  enqueued (trace (pipeThrough chunks))
  = enqueued (trace (pipeThrough [before]))
    ++ [Part.Error
          (Error (match Event.errorText event with
                  | Some text => text
                  | None => lit "An unknown backend error occurred."
                  end))]
    ++ enqueued (trace (pipeThrough [rest])).
Proof.
  intros Hevent Hty Hbefore Hframe Hchunks.
  rewrite (frame_in_stream message before rest chunks Hbefore Hframe Hchunks).
  rewrite handle_parts, Hevent. unfold parts_of, translate. rewrite Hty.
  destruct (Event.errorText event); reflexivity.
Qed.

End Streaming.

(** ** The schema *)

(** X8.  Validation neither alters nor invents a value: a JSON value
    validates to an event exactly when it is an object whose [type] names
    the event's tag and whose other declared properties are the event's
    fields, a missing property being an undefined field (the three counts
    of a [usage] being numbers), but for the [data], which is the
    object's [data] without a property named [__proto__]. *)
Theorem validation_keeps_values (j : json) (event : Event.t) :
  safeParse larsBackendStreamEventSchema j = Some event
  <-> exists o, j = JObject o /\ conforms o event.
Proof.
  split.
  - intros H. destruct j as [| | | | |o]; try discriminate H.
    exists o. split; [reflexivity | apply safeParse_conforms, H].
  - intros (o & -> & H). apply safeParse_conforms, H.
Qed.

Lemma get_set_ne (k k' : jsstring) (v : json) (o : list (jsstring * json)) :
  k <> k' -> get k' (set k v o) = get k' o.
Proof.
  intros Hne. induction o as [|[k0 v0] o IH]; cbn.
  - destruct (decide (k' = k)); [congruence | reflexivity].
  - destruct (decide (k = k0)) as [<-|]; cbn.
    + destruct (decide (k' = k)); [congruence | reflexivity].
    + destruct (decide (k' = k0)); [reflexivity | exact IH].
Qed.

Lemma safeParse_ext (o o' : list (jsstring * json)) :
  (forall key, In key declared_keys -> get (lit key) o = get (lit key) o') ->
  safeParse larsBackendStreamEventSchema (JObject o)
  = safeParse larsBackendStreamEventSchema (JObject o').
Proof.
  intros H.
  unfold safeParse, larsBackendStreamEventSchema, Zod.object, Zod.field.
  rewrite (H "type"%string), (H "messageId"%string), (H "id"%string),
    (H "delta"%string), (H "errorText"%string), (H "finishReason"%string),
    (H "usage"%string), (H "answer"%string), (H "data"%string)
    by (cbn; auto 12).
  reflexivity.
Qed.

(** X9.  Properties the schema does not declare are ignored: adding one
    to an object, or changing one, changes neither whether the object
    validates nor the event it validates to. *)
Theorem undeclared_properties_ignored (key : jsstring) (v : json)
  (o : list (jsstring * json)) :
  (forall name, In name declared_keys -> lit name <> key) ->
  safeParse larsBackendStreamEventSchema (JObject (set key v o))
  = safeParse larsBackendStreamEventSchema (JObject o).
Proof.
  intros Hkey. apply safeParse_ext. intros name Hin.
  apply get_set_ne. intros Heq. exact (Hkey name Hin (eq_sym Heq)).
Qed.

(** X10.  One property of the wrong kind invalidates the whole event: a
    [messageId], [id], [delta], [errorText] or [finishReason] that is
    there and is no string ([null] included), a [data] or a [usage] that
    is there and is no object, a [type] that is missing or no string. *)
Theorem wrong_kind_invalidates (o : list (jsstring * json)) :
  (exists key v,
      In key ["messageId"; "id"; "delta"; "errorText"; "finishReason"]%string
      /\ get (lit key) o = Some v /\ forall s, v <> JString s)
  \/ (exists v, get (lit "data") o = Some v /\ forall d, v <> JObject d)
  \/ (exists v, get (lit "usage") o = Some v /\ forall u, v <> JObject u)
  \/ (forall s, get (lit "type") o <> Some (JString s)) ->
  safeParse larsBackendStreamEventSchema (JObject o) = None.
Proof.
  intros Hbad.
  destruct (safeParse larsBackendStreamEventSchema (JObject o))
    as [event|] eqn:Hparse; [|reflexivity].
  exfalso. apply safeParse_conforms in Hparse.
  destruct Hparse as (Hty & Hmi & Hi & Hd & He & Hf & Hu & _ & Hda).
  destruct Hbad as [(key & v & Hkey & Hget & Hv) | [(v & Hget & Hv)
                   | [(v & Hget & Hv) | Hnone]]].
  - cbn in Hkey.
    destruct Hkey as [<- | [<- | [<- | [<- | [<- | []]]]]];
      rewrite Hget in *;
      match goal with
      | H : Some v = JString <$> ?x |- _ =>
          destruct x as [s|]; [injection H as ->; exact (Hv s eq_refl)
                              | discriminate H]
      end.
  - rewrite Hget in Hda. destruct (Event.data event) as [d|];
      [destruct Hda as (properties & [= ->] & _);
       exact (Hv properties eq_refl)
      | discriminate Hda].
  - rewrite Hget in Hu. destruct (Event.usage event) as [u|];
      [destruct Hu as (uo & [= ->] & _); exact (Hv uo eq_refl)
      | discriminate Hu].
  - destruct Hty as (name & _ & Hget). exact (Hnone _ Hget).
Qed.

(** ** The call *)

Lemma text_only_types (message : Message) :
  text_only message ->
  List.find not_text (part_types message) = None.
Proof.
  intros [texts Htexts]. unfold part_types. rewrite Htexts. clear Htexts.
  induction texts as [|t texts IH]; [reflexivity | exact IH].
Qed.

Lemma well_formed_offending (options : CallOptions) :
  Forall text_only (prompt options) -> offending options = None.
Proof.
  unfold offending. induction 1 as [|message messages Hm _ IH];
    [reflexivity|].
  cbn [flat_map]. rewrite find_app, (text_only_types _ Hm). exact IH.
Qed.

Lemma joined_texts (messages : list Message) :
  Forall text_only messages ->
  exists joined,
    mapM (fun message => text ← content_text message; mret (role message, text))
      messages = ([], Normal joined)
    /\ Forall2 (fun message entry =>
                  exists texts, content message = inr (TextPart <$> texts)
                                /\ entry = (role message, concat texts))
         messages joined.
Proof.
  induction 1 as [|message messages [texts Htexts] _ (joined & IH & IH2)].
  - exists []. split; [reflexivity | constructor].
  - exists ((role message, concat texts) :: joined).
    assert (content_text message = mret (concat texts)) as Htext.
    { unfold content_text. rewrite Htexts. do 2 f_equal.
      clear Htexts. induction texts as [|t texts IHt]; [reflexivity|].
      cbn. f_equal. exact IHt. }
    split.
    + cbn [mapM]. rewrite Htext, !bind_ret_l, IH. reflexivity.
    + constructor; [eauto | exact IH2].
Qed.

Lemma string_content_throws (messages : list Message) :
  (exists message s, In message messages /\ content message = inl s) ->
  mapM (fun message => text ← content_text message; mret (role message, text))
    messages = ([], Throw TypeError).
Proof.
  intros (message & s & Hin & Hs).
  induction messages as [|m messages IH]; [destruct Hin|].
  cbn [mapM].
  destruct (content m) as [s'|parts] eqn:Hm.
  - assert (content_text m = throw TypeError) as ->
      by (unfold content_text; rewrite Hm; reflexivity).
    reflexivity.
  - assert (exists text, content_text m = mret text) as [text ->]
      by (unfold content_text; rewrite Hm; eexists; reflexivity).
    destruct Hin as [-> | Hin]; [congruence|].
    rewrite !bind_ret_l, (IH Hin). reflexivity.
Qed.

Section Calling.

Variable JSON_parse : jsstring -> option json.
Variable self : LarsLanguageModel.
Variable network : Request.t -> completion Response.t.
Variable detail_or : json -> jsstring -> completion jsstring.

Local Abbreviation pipeThrough := (pipeThrough JSON_parse self).
Local Abbreviation backend_events := (backend_events JSON_parse).
Local Abbreviation fetch := (fetch network).
Local Abbreviation receive := (receive JSON_parse self detail_or).
Local Abbreviation doStream := (doStream JSON_parse self network detail_or).

Lemma receive_not_ok (response : Response.t) :
  Response.ok response = false ->
  receive response = ([], Throw (status_error response)).
Proof.
  intros Hok. unfold receive. rewrite Hok. cbn [negb].
  unfold parse_json. destruct (JSON_parse (Response.text response)) as [j|].
  - rewrite bind_ret_l. unfold lift.
    destruct (detail_or j (Response.text response)); reflexivity.
  - reflexivity.
Qed.

Lemma receive_null_body (response : Response.t) :
  Response.ok response = true ->
  Response.body response = None ->
  receive response = ([], Throw (Error (lit "API response body is null."))).
Proof. intros Hok Hbody. unfold receive. rewrite Hok, Hbody. reflexivity. Qed.

Lemma receive_body (response : Response.t) (chunks : list jsstring) :
  Response.ok response = true ->
  Response.body response = Some chunks ->
  receive response = (trace (pipeThrough chunks), Normal tt).
Proof.
  intros Hok Hbody. unfold receive. rewrite Hok, Hbody. cbn [negb].
  rewrite bind_ret_l.
  rewrite (returns_eq _ _ (pipeThrough_returns JSON_parse self chunks)).
  rewrite bind_Normal. cbn. rewrite app_nil_r. reflexivity.
Qed.

Lemma doStream_checked (options : CallOptions) :
  well_formed options ->
  exists request, sent self options request
                  /\ doStream options = (fetch request ≫= receive).
Proof.
  intros [Hauth Htexts]. unfold doStream. rewrite Hauth. cbn [negb].
  rewrite bind_ret_l.
  destruct (check_prompt (prompt options)) as [Htr Hout].
  pose proof (well_formed_offending options Htexts) as Hoff.
  unfold offending in Hoff. rewrite Hoff in Hout. destruct Hout as [units Hout].
  destruct (mapM (fun message => mapM check_part (part_types message)) _)
    as [tr c].
  cbn in Htr, Hout. subst tr c. rewrite bind_Normal. cbn [app].
  destruct (joined_texts _ Htexts) as (joined & -> & Hjoined).
  rewrite bind_Normal. cbn [app].
  match goal with
  | |- context [fetch ?r] => exists r
  end.
  split; [|unfold trace, outcome; destruct (_ ≫= _); reflexivity].
  repeat split; try reflexivity. exact Hjoined.
Qed.

Lemma fetch_receive (request : Request.t) :
  fetch request ≫= receive
  = match network request with
    | Normal response =>
        (Fetch request :: trace (receive response), outcome (receive response))
    | Throw e => ([Fetch request], Throw e)
    end.
Proof.
  unfold fetch, perform, lift. rewrite bind_Normal. cbn [app trace outcome fst snd].
  destruct (network request) as [response|e]; [|reflexivity].
  rewrite bind_Normal. reflexivity.
Qed.

(** X11.  A response with a failure status ends the call in one error
    that carries the status, the status text and the body as it came,
    whatever the body is: the message built from the [detail] of a JSON
    body is thrown inside the [try] block and never leaves it.  One
    request has gone out and no part has been put on the stream. *)
Theorem failure_status_error (options : CallOptions) (response : Response.t) :
  well_formed options ->
  (forall request, network request = Normal response) ->
  Response.ok response = false ->
  exists request,
    sent self options request
    /\ doStream options = ([Fetch request], Throw (status_error response)).
Proof.
  intros Hwf Hnet Hok.
  destruct (doStream_checked options Hwf) as (request & Hsent & ->).
  exists request. split; [exact Hsent|].
  rewrite fetch_receive, Hnet, (receive_not_ok response Hok). reflexivity.
Qed.

(** X12.  A successful response without a body ends the call in the
    error [API response body is null.], after the one request. *)
Theorem null_body_error (options : CallOptions) (response : Response.t) :
  well_formed options ->
  (forall request, network request = Normal response) ->
  Response.ok response = true ->
  Response.body response = None ->
  exists request,
    sent self options request
    /\ doStream options
       = ([Fetch request], Throw (Error (lit "API response body is null."))).
Proof.
  intros Hwf Hnet Hok Hbody.
  destruct (doStream_checked options Hwf) as (request & Hsent & ->).
  exists request. split; [exact Hsent|].
  rewrite fetch_receive, Hnet, (receive_null_body response Hok Hbody).
  reflexivity.
Qed.

(** X13.  When the request itself fails, the call ends in the exception
    [fetch] rejects with; nothing is retried and nothing is put out. *)
Theorem network_failure_propagates (options : CallOptions) (e : Exception) :
  well_formed options ->
  (forall request, network request = Throw e) ->
  exists request,
    sent self options request
    /\ doStream options = ([Fetch request], Throw e).
Proof.
  intros Hwf Hnet.
  destruct (doStream_checked options Hwf) as (request & Hsent & ->).
  exists request. split; [exact Hsent|].
  rewrite fetch_receive, Hnet. reflexivity.
Qed.

(** X14.  A successful response with a body: the call completes, it has
    sent exactly one request, and the parts of its stream are the
    translations of the valid events of the body, in arrival order. *)
Theorem successful_call (options : CallOptions) (response : Response.t)
  (chunks : list jsstring) :
  well_formed options ->
  (forall request, network request = Normal response) ->
  Response.ok response = true ->
  Response.body response = Some chunks ->
  exists request,
    sent self options request
    /\ doStream options
       = (Fetch request :: trace (pipeThrough chunks), Normal tt)
    /\ fetched (trace (doStream options)) = [request]
    /\ enqueued (trace (doStream options))
       = flat_map parts_of (backend_events (concat chunks)).
Proof.
  intros Hwf Hnet Hok Hbody.
  destruct (doStream_checked options Hwf) as (request & Hsent & ->).
  exists request. split; [exact Hsent|].
  rewrite fetch_receive, Hnet, (receive_body response chunks Hok Hbody).
  cbn [trace outcome fst snd]. split; [reflexivity|]. split.
  - cbn. f_equal. apply (pipeThrough_fetched JSON_parse self chunks).
  - cbn. apply pipeThrough_events.
Qed.

(** X15.  The request of a well-formed call, whatever the network does
    with it: a POST to [/api/v1/chat] under the model's base URL, with the
    model's id, the thread id and initial context of the provider options,
    the abort signal of the call, and for every message its role and the
    texts of its parts joined in order. *)
Theorem request_of_call (options : CallOptions) :
  well_formed options ->
  exists request rest,
    trace (doStream options) = Fetch request :: rest
    /\ Request.url request = baseURL self ++ lit "/api/v1/chat"
    /\ Request.method request = lit "POST"
    /\ model_id (Request.body request) = modelId self
    /\ Forall2 (fun message entry =>
                  exists texts, content message = inr (TextPart <$> texts)
                                /\ entry = (role message, concat texts))
         (prompt options) (messages (Request.body request))
    /\ thread_id (Request.body request)
       = providerOptions options ≫= get (lit "threadId")
    /\ initial_context (Request.body request)
       = providerOptions options ≫= get (lit "initialContext")
    /\ Request.signal request = abortSignal options.
Proof.
  intros Hwf.
  destruct (doStream_checked options Hwf)
    as (request & (Hurl & Hmethod & _ & Hmodel & Hmsgs & Hthread & Hctx & Hsig)
        & ->).
  rewrite fetch_receive. exists request.
  destruct (network request) as [response|e]; eexists;
    (split; [reflexivity | auto 10]).
Qed.

(** X16.  The headers of the request: every header of the caller goes
    out as the caller gave it, the credential included, and
    [Content-Type] and [Accept] take their stock values only where the
    caller has not set them. *)
Theorem caller_headers_win (options : CallOptions)
  (h : gmap jsstring (option jsstring)) :
  well_formed options ->
  headers options = Some h ->
  exists request rest,
    trace (doStream options) = Fetch request :: rest
    /\ (forall key,
          Request.headers request !! key
          = match h !! key with
            | Some value => Some value
            | None => default_headers !! key
            end)
    /\ Request.headers request !! lit "Authorization"
       = h !! lit "Authorization".
Proof.
  intros Hwf Hh.
  destruct (doStream_checked options Hwf)
    as (request & (_ & _ & Hheaders & _) & ->).
  rewrite fetch_receive. exists request.
  assert (forall key,
            Request.headers request !! key
            = match h !! key with
              | Some value => Some value
              | None => default_headers !! key
              end) as Hlookup.
  { intros key. rewrite Hheaders, Hh. unfold combineHeaders. cbn [nullish].
    rewrite lookup_union. destruct (h !! key), (default_headers !! key);
      reflexivity. }
  destruct (network request) as [response|e]; eexists;
    (split; [reflexivity|]); (split; [exact Hlookup|]);
    rewrite Hlookup; destruct Hwf as [Hauth _]; unfold authorization in Hauth;
    rewrite Hh in Hauth; cbn [mbind option_bind] in Hauth;
    destruct (h !! lit "Authorization"); try reflexivity; discriminate Hauth.
Qed.

Lemma doStream_unauthorized (options : CallOptions) :
  truthy (authorization options) = false ->
  doStream options = ([], Throw authentication_error).
Proof. intros H. unfold doStream. rewrite H. reflexivity. Qed.

Lemma doStream_offending (options : CallOptions) (type : option jsstring) :
  truthy (authorization options) = true ->
  offending options = Some type ->
  doStream options = ([], Throw (unsupported_input type)).
Proof.
  intros Hauth Hoff. unfold doStream. rewrite Hauth. cbn [negb].
  rewrite bind_ret_l.
  destruct (check_prompt (prompt options)) as [Htr Hout].
  unfold offending in Hoff. rewrite Hoff in Hout.
  destruct (mapM (fun message => mapM check_part (part_types message)) _)
    as [tr c].
  cbn in Htr, Hout. subst tr c. reflexivity.
Qed.

Lemma doStream_string (options : CallOptions) :
  truthy (authorization options) = true ->
  offending options = None ->
  (exists message s, In message (prompt options) /\ content message = inl s) ->
  doStream options = ([], Throw TypeError).
Proof.
  intros Hauth Hoff Hstring. unfold doStream. rewrite Hauth. cbn [negb].
  rewrite bind_ret_l.
  destruct (check_prompt (prompt options)) as [Htr Hout].
  unfold offending in Hoff. rewrite Hoff in Hout. destruct Hout as [units Hout].
  destruct (mapM (fun message => mapM check_part (part_types message)) _)
    as [tr c].
  cbn in Htr, Hout. subst tr c. rewrite bind_Normal. cbn [app].
  rewrite (string_content_throws _ Hstring). reflexivity.
Qed.

(** X17.  A message whose content is a string, as the SDK's system
    message has it, makes every call fail before the request: the loop
    over the content meets a character, which has no [type], and throws
    the unsupported-functionality error (for [undefined], unless an
    earlier part fails first); and where the string is empty and every
    part is a text part, joining the content throws a TypeError. *)
Theorem string_content_fails (options : CallOptions) :
  truthy (authorization options) = true ->
  (exists message s, In message (prompt options) /\ content message = inl s) ->
  doStream options
  = ([], Throw (match offending options with
                | Some type => unsupported_input type
                | None => TypeError
                end))
  /\ (forall message c s,
        In message (prompt options) -> content message = inl (c :: s) ->
        exists type, offending options = Some type).
Proof.
  intros Hauth Hstring. split.
  - destruct (offending options) as [type|] eqn:Hoff.
    + apply (doStream_offending options type Hauth Hoff).
    + apply (doStream_string options Hauth Hoff Hstring).
  - intros message c s Hin Hcontent.
    destruct (offending options) as [type|] eqn:Hoff; [eauto|].
    exfalso. unfold offending in Hoff.
    assert (not_text None = false) as Hfalse; [|discriminate Hfalse].
    apply (find_none _ _ Hoff None). apply in_flat_map.
    exists message. split; [exact Hin|].
    unfold part_types. rewrite Hcontent.
    destruct s as [|d s]; cbn; [left; reflexivity|].
    destruct (isHighSurrogate c && isLowSurrogate d); left; reflexivity.
Qed.

Lemma message_kinds (message : Message) :
  text_only message
  \/ (exists s, content message = inl s)
  \/ (exists type, In type (part_types message) /\ not_text type = true).
Proof.
  unfold text_only, part_types.
  destruct (content message) as [s|parts]; [right; left; eauto|].
  induction parts as [|part parts [[texts Htexts] | [[s Hs] | (ty & Hin & Hty)]]].
  - left. exists []. reflexivity.
  - destruct part as [t| | | |];
      try (right; right; eexists; split; [left; reflexivity | reflexivity]).
    left. exists (t :: texts). injection Htexts as ->. reflexivity.
  - discriminate Hs.
  - right. right. exists ty. split; [right; exact Hin | exact Hty].
Qed.

Lemma not_well_formed (options : CallOptions) :
  ~ Forall text_only (prompt options) ->
  (exists type, offending options = Some type)
  \/ (exists message s, In message (prompt options) /\ content message = inl s).
Proof.
  intros Hnot. unfold offending.
  induction (prompt options) as [|message messages IH];
    [destruct Hnot; constructor|].
  destruct (message_kinds message) as [Htext | [[s Hs] | (ty & Hin & Hty)]].
  - destruct IH as [[type Hoff] | (m & s & Hin & Hs)].
    + intros Hall. apply Hnot. constructor; assumption.
    + left. exists type. cbn [flat_map].
      rewrite find_app, (text_only_types _ Htext). exact Hoff.
    + right. exists m, s. split; [right; exact Hin | exact Hs].
  - right. exists message, s. split; [left; reflexivity | exact Hs].
  - left. cbn [flat_map]. rewrite find_app.
    destruct (List.find not_text (part_types message)) as [first|] eqn:Hfind;
      [eauto|].
    rewrite (find_none _ _ Hfind ty Hin) in Hty. discriminate Hty.
Qed.

Lemma receive_fetches_nothing (response : Response.t) :
  fetched (trace (receive response)) = [].
Proof.
  destruct (Response.ok response) eqn:Hok.
  - destruct (Response.body response) as [chunks|] eqn:Hbody.
    + rewrite (receive_body response chunks Hok Hbody).
      apply (pipeThrough_fetched JSON_parse self chunks).
    + rewrite (receive_null_body response Hok Hbody). reflexivity.
  - rewrite (receive_not_ok response Hok). reflexivity.
Qed.

(** X18.  A call sends a request exactly when it is well formed, that is
    when its credential is not empty and every message is an array of
    text parts, and then it sends exactly one; any other call ends in an
    exception without having had any effect. *)
Theorem call_sends_one_request_or_none (options : CallOptions) :
  (well_formed options ->
   exists request,
     sent self options request
     /\ fetched (trace (doStream options)) = [request])
  /\ (~ well_formed options ->
      exists e, doStream options = ([], Throw e)).
Proof.
  split.
  - intros Hwf.
    destruct (doStream_checked options Hwf) as (request & Hsent & ->).
    exists request. split; [exact Hsent|]. rewrite fetch_receive.
    destruct (network request) as [response|e]; [|reflexivity].
    cbn. rewrite receive_fetches_nothing. reflexivity.
  - intros Hnot.
    destruct (truthy (authorization options)) eqn:Hauth;
      [|eexists; apply (doStream_unauthorized options Hauth)].
    assert (~ Forall text_only (prompt options)) as Hprompt
      by (intros Hall; apply Hnot; split; assumption).
    destruct (offending options) as [type|] eqn:Hoff;
      [eexists; apply (doStream_offending options type Hauth Hoff)|].
    destruct (not_well_formed options Hprompt) as [[type Hty] | Hstring];
      [congruence|].
    eexists. apply (doStream_string options Hauth Hoff Hstring).
Qed.

End Calling.

(** ** The test script *)

Lemma read_from (parts : list Part.t) (state : Reading) :
  fullResponseText (fold_left read parts state)
  = fullResponseText state ++ text_of parts
  /\ receivedData (fold_left read parts state)
     = match last (omap data_of parts) with
       | Some data => Some data
       | None => receivedData state
       end.
Proof.
  revert state; induction parts as [|part parts IH]; intros state.
  - cbn. rewrite app_nil_r. split; reflexivity.
  - cbn [fold_left]. destruct (IH (read state part)) as [-> ->].
    destruct part; cbn [read omap list_omap data_of fullResponseText
                          receivedData];
      try (split; reflexivity).
    + split; [reflexivity|].
      rewrite last_cons. destruct (last (omap data_of parts)); reflexivity.
    + split; [|reflexivity].
      unfold text_of. cbn [omap list_omap concat]. rewrite app_assoc.
      reflexivity.
Qed.

Lemma readAll_spec (parts : list Part.t) :
  fullResponseText (readAll parts) = text_of parts
  /\ receivedData (readAll parts) = last (omap data_of parts)
  /\ (verdict (readAll parts) = Normal tt
      <-> (exists data, In (Part.Data data) parts)
          /\ trim (text_of parts) <> [])
  /\ ((forall data, ~ In (Part.Data data) parts) ->
      verdict (readAll parts)
      = Throw (Error (lit "Test failed: Did not receive metadata `data` part."))).
Proof.
  unfold readAll.
  destruct (read_from parts {| fullResponseText := []; receivedData := None |})
    as [Htext Hdata].
  cbn [fullResponseText receivedData app] in Htext, Hdata.
  assert (receivedData (fold_left read parts
                          {| fullResponseText := []; receivedData := None |})
          = last (omap data_of parts)) as Hlast
    by (rewrite Hdata; destruct (last (omap data_of parts)); reflexivity).
  assert (is_Some (last (omap data_of parts))
          <-> exists data, In (Part.Data data) parts) as Hsome.
  { rewrite last_is_Some. split.
    - intros Hne. destruct (omap data_of parts) as [|d l] eqn:Hl;
        [congruence|].
      assert (d ∈ omap data_of parts) as Hd by (rewrite Hl; left).
      apply list_elem_of_omap in Hd as (part & Hin & Hpart).
      exists d. destruct part; try discriminate Hpart.
      injection Hpart as ->. apply list_elem_of_In, Hin.
    - intros [data Hin] Hnil.
      assert (data ∈ omap data_of parts) as Hd.
      { apply list_elem_of_omap. exists (Part.Data data).
        split; [apply list_elem_of_In, Hin | reflexivity]. }
      rewrite Hnil in Hd. inversion Hd. }
  split; [exact Htext|]. split; [exact Hlast|].
  unfold verdict. rewrite Hlast, Htext. split.
  - destruct (last (omap data_of parts)) as [d|] eqn:Hl.
    + assert (exists data, In (Part.Data data) parts) as Hex
        by (apply Hsome; eauto).
      destruct (bool_decide (trim (text_of parts) = [])) eqn:Hb.
      * apply bool_decide_eq_true in Hb. split; [discriminate|].
        intros [_ Hne]. contradiction.
      * apply bool_decide_eq_false in Hb. split; [auto | reflexivity].
    + split; [discriminate|]. intros [Hex _]. apply Hsome in Hex.
      destruct Hex as [x Hx]. discriminate Hx.
  - intros Hnone. destruct (last (omap data_of parts)) as [d|] eqn:Hl;
      [|reflexivity].
    assert (exists data, In (Part.Data data) parts) as [data Hin]
      by (apply Hsome; eauto).
    destruct (Hnone data Hin).
Qed.

(** X19.  The reader loop of the test script: the text it assembles is
    the [delta]s of the [text-delta] parts in order (reasoning deltas and
    every other part add nothing), the data it keeps is that of the last
    [data] part; and its two checks pass exactly when the stream held a
    [data] part and the text is more than white space, the missing-data
    failure coming first. *)
Theorem reader_loop_reads (parts : list Part.t) :
  fullResponseText (readAll parts) = text_of parts
  /\ receivedData (readAll parts) = last (omap data_of parts)
  /\ (verdict (readAll parts) = Normal tt
      <-> (exists data, In (Part.Data data) parts)
          /\ trim (text_of parts) <> [])
  /\ ((forall data, ~ In (Part.Data data) parts) ->
      verdict (readAll parts)
      = Throw (Error (lit "Test failed: Did not receive metadata `data` part."))).
Proof. exact (readAll_spec parts). Qed.

Lemma data_part_of_event (event : Event.t) (data : list (jsstring * json)) :
  In (Part.Data data) (parts_of event)
  <-> Event.type event = Event.Metadata /\ Event.data event = Some data.
Proof.
  unfold parts_of, translate.
  destruct (Event.type event) eqn:Hty;
    destruct (Event.data event) as [d|];
    destruct (Event.delta event) as [[|c dl]|];
    (split;
     [ intros H; cbn in H;
       try (destruct H as [H | H]); try discriminate H; try (destruct H; fail);
       try (injection H as ->; auto)
     | intros [H1 H2]; try discriminate H1; try discriminate H2;
       try (injection H2 as ->; left; reflexivity) ]).
Qed.

Lemma text_of_events (events : list Event.t) :
  text_of (flat_map parts_of events) = concat (text_deltas events).
Proof.
  unfold text_deltas. induction events as [|event events IH]; [reflexivity|].
  cbn [flat_map omap list_omap]. rewrite text_of_app, IH, text_of_parts_of.
  destruct (Event.type event); try reflexivity.
  destruct (Event.delta event) as [[|c d]|]; reflexivity.
Qed.

Lemma test_options_well_formed (threadId query : jsstring)
  (token : option jsstring) :
  well_formed (test_options threadId query token).
Proof.
  split.
  - unfold authorization, test_options. cbn [headers mbind option_bind].
    rewrite lookup_singleton_eq. cbn. destruct token; reflexivity.
  - constructor; [|constructor]. exists [query]. reflexivity.
Qed.

Section Testing.

Variable JSON_parse : jsstring -> option json.
Variable network : Request.t -> completion Response.t.
Variable detail_or : json -> jsstring -> completion jsstring.

Local Abbreviation runStreamingTest :=
  (runStreamingTest JSON_parse network detail_or).
Local Abbreviation backend_events := (backend_events JSON_parse).

Lemma registered_model (env : option jsstring) (id : jsstring)
  (model : LarsLanguageModel) :
  createLars None env !! id = Some model ->
  id = lit "caselaw"
  /\ model = {| modelId := lit "caselaw";
                baseURL := env ?? lit "http://127.0.0.1:8000";
                debug := false |}.
Proof.
  unfold createLars. intros H.
  apply lookup_singleton_Some in H as [<- <-]. split; reflexivity.
Qed.

Lemma runStreamingTest_call (model : LarsLanguageModel)
  (threadId query : jsstring) (token : option jsstring) :
  let call := doStream JSON_parse
                {| modelId := modelId model; baseURL := baseURL model;
                   debug := true |}
                network detail_or (test_options threadId query token) in
  runStreamingTest model threadId query token
  = (trace call,
     match outcome call with
     | Normal _ => verdict (readAll (enqueued (trace call)))
     | Throw e => Throw e
     end).
Proof.
  cbn zeta. unfold runStreamingTest.
  destruct (outcome _); reflexivity.
Qed.

(** X20.  Whatever the token and the network are, the test of a model of
    the provider sends exactly one request: to [/api/v1/chat] under the
    base URL of the environment, or under [http://127.0.0.1:8000] where
    the environment sets none, for the model [caselaw], with the query
    as the one user message, the thread id, and the header
    [Authorization: Bearer <token>]. *)
Theorem streaming_test_request (env : option jsstring) (id : jsstring)
  (model : LarsLanguageModel) (threadId query : jsstring)
  (token : option jsstring) :
  createLars None env !! id = Some model ->
  exists request,
    fetched (trace (runStreamingTest model threadId query token)) = [request]
    /\ Request.url request
       = (env ?? lit "http://127.0.0.1:8000") ++ lit "/api/v1/chat"
    /\ Request.method request = lit "POST"
    /\ model_id (Request.body request) = lit "caselaw"
    /\ messages (Request.body request) = [(user, query)]
    /\ thread_id (Request.body request) = Some (JString threadId)
    /\ Request.headers request !! lit "Authorization"
       = Some (Some (lit "Bearer " ++ template token)).
Proof.
  intros Hmodel. apply registered_model in Hmodel as [_ ->].
  rewrite runStreamingTest_call. cbn [trace fst modelId baseURL].
  pose proof (test_options_well_formed threadId query token) as Hwf.
  destruct (doStream_checked JSON_parse
              {| modelId := lit "caselaw";
                 baseURL := env ?? lit "http://127.0.0.1:8000";
                 debug := true |} network detail_or _ Hwf)
    as (request & (Hurl & Hmethod & Hheaders & Hid & Hmsgs & Hthread & _)
        & ->).
  exists request. split.
  { rewrite fetch_receive.
    destruct (network request) as [response|e]; [|reflexivity].
    cbn. rewrite receive_fetches_nothing. reflexivity. }
  split; [exact Hurl|]. split; [exact Hmethod|]. split; [exact Hid|].
  split; [|split; [exact Hthread|]].
  - cbn [test_options prompt] in Hmsgs.
    inversion Hmsgs as [|m entry ms entries (texts & Htexts & ->) Hrest];
      subst.
    inversion Hrest; subst. cbn [content role] in *.
    injection Htexts as Htexts. destruct texts as [|t [|t' texts]];
      try discriminate Htexts.
    injection Htexts as <-. cbn. rewrite app_nil_r. reflexivity.
  - rewrite Hheaders. unfold combineHeaders, test_options.
    cbn [headers nullish]. rewrite lookup_union, lookup_singleton_eq.
    destruct (default_headers !! lit "Authorization"); reflexivity.
Qed.

(** X21.  With a network that answers with one response, the test of a
    model of the provider passes exactly when the response is a success
    with a body whose valid events hold a [metadata] event with [data]
    and [text-delta]s whose non-empty [delta]s, joined, are more than
    white space. *)
Theorem streaming_test_verdict (env : option jsstring) (id : jsstring)
  (model : LarsLanguageModel) (threadId query : jsstring)
  (token : option jsstring) (response : Response.t) :
  createLars None env !! id = Some model ->
  (forall request, network request = Normal response) ->
  outcome (runStreamingTest model threadId query token) = Normal tt
  <-> Response.ok response = true
      /\ exists chunks,
           Response.body response = Some chunks
           /\ (exists event data,
                 In event (backend_events (concat chunks))
                 /\ Event.type event = Event.Metadata
                 /\ Event.data event = Some data)
           /\ trim (concat (text_deltas (backend_events (concat chunks))))
              <> [].
Proof.
  intros Hmodel Hnet. apply registered_model in Hmodel as [_ ->].
  rewrite runStreamingTest_call. cbn [outcome snd modelId baseURL].
  pose proof (test_options_well_formed threadId query token) as Hwf.
  destruct (doStream_checked JSON_parse
              {| modelId := lit "caselaw";
                 baseURL := env ?? lit "http://127.0.0.1:8000";
                 debug := true |} network detail_or _ Hwf)
    as (request & _ & ->).
  rewrite fetch_receive, Hnet. cbn [trace outcome fst snd].
  destruct (Response.ok response) eqn:Hok.
  - destruct (Response.body response) as [chunks|] eqn:Hbody.
    + rewrite (receive_body _ _ _ response chunks Hok Hbody).
      cbn [trace outcome fst snd].
      change (enqueued (Fetch request :: ?tr)) with (enqueued tr).
      rewrite pipeThrough_events.
      destruct (readAll_spec (flat_map parts_of (backend_events (concat chunks))))
        as (_ & _ & -> & _).
      rewrite text_of_events. split.
      * intros [[data Hin] Htext]. split; [reflexivity|].
        exists chunks. split; [reflexivity|]. split; [|exact Htext].
        apply in_flat_map in Hin as (event & Hev & Hpart).
        apply data_part_of_event in Hpart as [Hty Hdata]. eauto.
      * intros (_ & chunks' & [= <-] & (event & data & Hev & Hty & Hdata)
                & Htext).
        split; [|exact Htext]. exists data. apply in_flat_map.
        exists event. split; [exact Hev|].
        apply data_part_of_event. auto.
    + rewrite (receive_null_body _ _ _ response Hok Hbody).
      cbn [outcome snd]. split; [discriminate|].
      intros (_ & chunks & H & _). discriminate H.
  - rewrite (receive_not_ok _ _ _ response Hok). cbn [outcome snd].
    split; [discriminate | intros [H _]; discriminate H].
Qed.

End Testing.

(** * The further properties at concrete inputs *)

Lemma plain_call_well_formed : well_formed plain_call.
Proof.
  split; [reflexivity|].
  repeat constructor. exists [lit "Hello"; lit " world"]. reflexivity.
Qed.

Lemma unterminated_frame_kept_witness :
  enqueued (trace (pipeThrough parse caselaw
                     [wire "data: {'type':'start'}"; split_head]))
  = enqueued (trace (pipeThrough parse caselaw
                       [wire "data: {'type':'start'}"]))
  /\ returns (pipeThrough parse caselaw
                [wire "data: {'type':'start'}"; split_head]) split_head.
Proof.
  apply (unterminated_frame_kept parse caselaw
           (wire "data: {'type':'start'}") split_head).
  - unfold returns.
    rewrite (proj2 (pipeThrough_frames parse caselaw _)).
    vm_compute. reflexivity.
  - vm_compute. reflexivity.
  - vm_compute. reflexivity.
Defined.

Lemma event_yields_at_most_one_part_witness :
  parts_of empty_delta_event = []
  /\ (length (enqueued (trace (handle parse caselaw metadata_frame))) <= 1)%nat.
Proof.
  destruct (event_yields_at_most_one_part parse caselaw empty_delta_event)
    as (Hnone & _ & Hframe).
  split; [|exact (Hframe metadata_frame)].
  apply (proj2 Hnone). right. right.
  split; [left; reflexivity | right; reflexivity].
Defined.

Lemma transform_is_silent_witness :
  fetched (trace (pipeThrough parse caselaw [scenario])) = []
  /\ logged (trace (pipeThrough parse caselaw [scenario])) = [].
Proof.
  destruct (transform_is_silent parse caselaw [scenario]) as [Hfetch Hlog].
  split; [exact Hfetch|]. exact (proj1 (Hlog eq_refl)).
Defined.

Lemma debug_log_accounts_for_frames_witness :
  length (logged (trace (pipeThrough parse caselaw_debug [scenario])))
  = 7%nat.
Proof.
  rewrite (debug_log_accounts_for_frames parse caselaw_debug [scenario]
             eq_refl).
  vm_compute. reflexivity.
Defined.

Lemma error_event_is_forwarded_witness :
  enqueued (trace (pipeThrough parse caselaw
                     [wire "data: {'type':'start'}" ++ error_frame;
                      separator ++ wire "data: {'type':'text-end'}"]))
  = [Part.StreamStart []; Part.Error (Error (lit "boom"));
     Part.TextEnd (lit "text-block")].
Proof.
  rewrite (error_event_is_forwarded parse caselaw error_frame
             (wire "data: {'type':'start'}")
             (wire "data: {'type':'text-end'}") error_event).
  - rewrite !pipeThrough_events. vm_compute. reflexivity.
  - vm_compute. reflexivity.
  - reflexivity.
  - unfold returns.
    rewrite (proj2 (pipeThrough_frames parse caselaw _)).
    vm_compute. reflexivity.
  - vm_compute. reflexivity.
  - vm_compute. reflexivity.
Defined.

Lemma validation_keeps_values_witness :
  safeParse larsBackendStreamEventSchema
    (JObject [(lit "type", JString (lit "metadata"));
              (lit "data", JObject [(lit "__proto__", JObject []);
                                    (lit "a", JNumber (integer 2))])])
  = Some (Event.Make Event.Metadata None None None None None None None
            (Some [(lit "a", JNumber (integer 2))])).
Proof.
  apply (proj2 (validation_keeps_values _ _)).
  eexists. split; [reflexivity|].
  repeat split.
  - exists "metadata"%string. split; [cbn; auto | reflexivity].
  - eexists. split; reflexivity.
Defined.

Lemma undeclared_properties_ignored_witness :
  safeParse larsBackendStreamEventSchema
    (JObject (set (lit "extra") JNull [(lit "type", JString (lit "start"))]))
  = Some start_event.
Proof.
  rewrite (undeclared_properties_ignored (lit "extra") JNull
             [(lit "type", JString (lit "start"))]).
  - vm_compute. reflexivity.
  - intros name Hin Heq.
    repeat (destruct Hin as [<- | Hin]; [vm_compute in Heq; discriminate Heq|]).
    destruct Hin.
Defined.

Lemma wrong_kind_invalidates_witness :
  safeParse larsBackendStreamEventSchema
    (JObject [(lit "type", JString (lit "text-delta")); (lit "delta", JNull)])
  = None.
Proof.
  apply (wrong_kind_invalidates
           [(lit "type", JString (lit "text-delta")); (lit "delta", JNull)]).
  left. exists "delta"%string, JNull.
  split; [right; right; left; reflexivity|].
  split; [vm_compute; reflexivity | discriminate].
Defined.

Lemma failure_status_error_witness :
  exists request,
    doStream parse caselaw (answering not_found) plain_detail plain_call
    = ([Fetch request],
       Throw (Error (jlit "API call failed with status 404 Not Found: {'detail':'no such thread'}"))).
Proof.
  destruct (failure_status_error parse caselaw (answering not_found)
              plain_detail plain_call not_found plain_call_well_formed
              (fun _ => eq_refl) eq_refl) as (request & _ & Hcall).
  exists request. rewrite Hcall. vm_compute. reflexivity.
Defined.

Lemma null_body_error_witness :
  exists request,
    doStream parse caselaw (answering no_body) plain_detail plain_call
    = ([Fetch request], Throw (Error (lit "API response body is null."))).
Proof.
  destruct (null_body_error parse caselaw (answering no_body)
              plain_detail plain_call no_body plain_call_well_formed
              (fun _ => eq_refl) eq_refl eq_refl) as (request & _ & Hcall).
  exists request. exact Hcall.
Defined.

Lemma network_failure_propagates_witness :
  exists request,
    doStream parse caselaw offline plain_detail plain_call
    = ([Fetch request], Throw TypeError).
Proof.
  destruct (network_failure_propagates parse caselaw offline plain_detail
              plain_call TypeError plain_call_well_formed
              (fun _ => eq_refl)) as (request & _ & Hcall).
  exists request. exact Hcall.
Defined.

Lemma successful_call_witness :
  enqueued (trace (doStream parse caselaw (answering streamed) plain_detail
                     plain_call))
  = [Part.Data [(lit "k", JNumber (integer 1))];
     Part.TextDelta (lit "text-block") (lit "X");
     Part.StreamStart [];
     Part.TextStart (lit "t1");
     Part.TextDelta (lit "t1") (lit "Hi");
     Part.TextDelta (lit "t1") (lit " there");
     Part.TextEnd (lit "t1");
     Part.Finish (lit "stop")
       {| Part.inputTokens := integer 0; Part.outputTokens := integer 0;
          Part.totalTokens := integer 0; Part.reasoningTokens := None |}].
Proof.
  destruct (successful_call parse caselaw (answering streamed) plain_detail
              plain_call streamed
              [metadata_frame ++ separator ++ split_head;
               split_tail ++ separator ++ scenario]
              plain_call_well_formed (fun _ => eq_refl) eq_refl eq_refl)
    as (request & _ & _ & _ & Hparts).
  rewrite Hparts. vm_compute. reflexivity.
Defined.

Lemma request_of_call_witness :
  exists request rest,
    trace (doStream parse caselaw offline plain_detail plain_call)
    = Fetch request :: rest
    /\ Request.url request = lit "http://127.0.0.1:8000/api/v1/chat"
    /\ messages (Request.body request) = [(user, lit "Hello world")]
    /\ thread_id (Request.body request) = Some (JString (lit "t-1"))
    /\ Request.signal request = Some 7%nat.
Proof.
  destruct (request_of_call parse caselaw offline plain_detail plain_call
              plain_call_well_formed)
    as (request & rest & Htrace & Hurl & _ & _ & Hmsgs & Hthread & _ & Hsig).
  exists request, rest. split; [exact Htrace|].
  split; [rewrite Hurl; vm_compute; reflexivity|].
  split; [|split; [rewrite Hthread; vm_compute; reflexivity | exact Hsig]].
  cbn [plain_call prompt] in Hmsgs.
  inversion Hmsgs as [|m entry ms entries (texts & Htexts & ->) Hrest];
    subst.
  inversion Hrest; subst. cbn [content role] in Htexts |- *.
  injection Htexts as Htexts.
  destruct texts as [|t1 [|t2 [|t3 texts]]]; try discriminate Htexts.
  injection Htexts as <- <-. vm_compute. reflexivity.
Defined.

Lemma caller_headers_win_witness :
  exists request rest,
    trace (doStream parse caselaw offline plain_detail plain_call)
    = Fetch request :: rest
    /\ Request.headers request !! lit "Authorization"
       = Some (Some (lit "Bearer token"))
    /\ Request.headers request !! lit "Accept"
       = Some (Some (lit "text/event-stream")).
Proof.
  destruct (caller_headers_win parse caselaw offline plain_detail plain_call
              {[ lit "Authorization" := Some (lit "Bearer token") ]}
              plain_call_well_formed eq_refl)
    as (request & rest & Htrace & Hall & Hauth).
  exists request, rest. split; [exact Htrace|]. split.
  - rewrite Hauth. apply lookup_singleton_eq.
  - rewrite Hall, lookup_singleton_ne by (vm_compute; discriminate).
    vm_compute. reflexivity.
Defined.

Lemma string_content_fails_witness :
  doStream parse caselaw offline plain_detail system_call
  = ([], Throw (unsupported_input None)).
Proof.
  destruct (string_content_fails parse caselaw offline plain_detail
              system_call) as [Hcall _].
  - reflexivity.
  - exists {| role := system; content := inl (lit "Be brief") |},
           (lit "Be brief").
    split; [left; reflexivity | reflexivity].
  - rewrite Hcall. vm_compute. reflexivity.
Defined.

Lemma call_sends_one_request_or_none_witness :
  (exists request,
     fetched (trace (doStream parse caselaw offline plain_detail plain_call))
     = [request])
  /\ exists e,
       doStream parse caselaw offline plain_detail call_with_token
       = ([], Throw e).
Proof.
  destruct (call_sends_one_request_or_none parse caselaw offline plain_detail
              plain_call) as [Hsends _].
  destruct (call_sends_one_request_or_none parse caselaw offline plain_detail
              call_with_token) as [_ Hnone].
  split.
  - destruct (Hsends plain_call_well_formed) as (request & _ & Hfetched).
    exists request. exact Hfetched.
  - apply Hnone. intros [_ Htexts].
    inversion Htexts as [|m ms [texts Hm] _]; subst.
    cbn [content] in Hm. injection Hm as Hm.
    destruct texts as [|t1 [|t2 texts]]; discriminate Hm.
Defined.

Lemma reader_loop_reads_witness :
  verdict (readAll [Part.StreamStart [];
                    Part.Data [(lit "k", JNumber (integer 1))];
                    Part.ReasoningDelta (lit "r") (lit "hm");
                    Part.TextDelta (lit "t1") (lit "Hi")])
  = Normal tt
  /\ verdict (readAll [Part.TextDelta (lit "t1") (lit "Hi")])
     = Throw (Error (lit "Test failed: Did not receive metadata `data` part.")).
Proof.
  split.
  - apply (proj1 (proj2 (proj2 (reader_loop_reads _)))). split.
    + exists [(lit "k", JNumber (integer 1))]. right. left. reflexivity.
    + vm_compute. discriminate.
  - apply (proj2 (proj2 (proj2 (reader_loop_reads _)))).
    intros data [H | []]. discriminate H.
Defined.

Lemma streaming_test_request_witness :
  exists request,
    fetched (trace (runStreamingTest parse offline plain_detail caselaw
                      (lit "t-1") (lit "What is the test?") None))
    = [request]
    /\ Request.url request = lit "http://127.0.0.1:8000/api/v1/chat"
    /\ messages (Request.body request) = [(user, lit "What is the test?")]
    /\ Request.headers request !! lit "Authorization"
       = Some (Some (lit "Bearer undefined")).
Proof.
  destruct (streaming_test_request parse offline plain_detail None
              (lit "caselaw") caselaw (lit "t-1") (lit "What is the test?")
              None) as (request & Hfetched & Hurl & _ & _ & Hmsgs & _ & Hauth).
  - apply lookup_singleton_eq.
  - exists request. split; [exact Hfetched|].
    split; [rewrite Hurl; vm_compute; reflexivity|].
    split; [exact Hmsgs|].
    etransitivity; [exact Hauth | vm_compute; reflexivity].
Defined.

Lemma streaming_test_verdict_witness :
  outcome (runStreamingTest parse (answering streamed) plain_detail caselaw
             (lit "t-1") (lit "What is the test?") (Some (lit "secret")))
  = Normal tt
  /\ outcome (runStreamingTest parse (answering no_body) plain_detail caselaw
                (lit "t-1") (lit "What is the test?") (Some (lit "secret")))
     <> Normal tt.
Proof.
  split.
  - apply (proj2 (streaming_test_verdict parse (answering streamed)
                    plain_detail None (lit "caselaw") caselaw (lit "t-1")
                    (lit "What is the test?") (Some (lit "secret")) streamed
                    (lookup_singleton_eq _ _) (fun _ => eq_refl))).
    split; [reflexivity|].
    exists [metadata_frame ++ separator ++ split_head;
            split_tail ++ separator ++ scenario].
    split; [reflexivity|]. split.
    + exists metadata_event, [(lit "k", JNumber (integer 1))].
      split; [vm_compute; left; reflexivity|]. split; reflexivity.
    + vm_compute. discriminate.
  - intros Hpass.
    apply (proj1 (streaming_test_verdict parse (answering no_body)
                    plain_detail None (lit "caselaw") caselaw (lit "t-1")
                    (lit "What is the test?") (Some (lit "secret")) no_body
                    (lookup_singleton_eq _ _) (fun _ => eq_refl))) in Hpass.
    destruct Hpass as (_ & chunks & Hbody & _). discriminate Hbody.
Defined.
